(** * plant_station: the plotting pipeline of [data_plot.py]

    A shallow embedding of [scale_moisture], [smooth_data] and [save_plot].

    Numbers.  Sensor values and bin edges are exact rationals ([Q]); a
    timestamp is the integer number of nanoseconds since the epoch ([Z]),
    which is what [astype(int)] yields, so that a change of time zone does
    not touch it.  Python computes the same expressions in IEEE 754
    binary64; module [Binary64] restates [scale_moisture] and the mean of a
    group on primitive floats, so that the rounding of the running program
    can be evaluated where a statement depends on it.

    pandas.  [sort_values], the comparison mask, [qcut] and [groupby] are
    library calls; they are modelled by the list functions below, following
    the algorithm of pandas 2: sample quantiles by linear interpolation at
    [linspace(0, 1, q + 1)]; duplicate edges removed unless there are only
    two edges; right-closed intervals, the first of which also takes the
    lowest value; a value on no interval left without a category; one
    output row per category, observed or not, with NaN for the mean and NaT
    for the median of a category without rows.  A missing value, NaN or
    NaT, is [None].

    Effects.  [save_plot] reads one file, prints and writes images: it is
    a function from the machine before the call to the outcome of the call
    and the machine after it. *)

From Stdlib Require Import String.
From Stdlib Require Import QArith ZArith Qround List Lia Lqa Bool.
From Stdlib Require Import Sorted Permutation.
From Stdlib Require Floats.
Import ListNotations.

Local Open Scope Q_scope.

(** ** Exceptions and results *)

Inductive exn : Type :=
| ZeroDivisionError
| EmptyDataError
| ValueError.

Inductive res (A : Type) : Type :=
| Ok (a : A)
| Raise (e : exn).

Arguments Ok {A} a.
Arguments Raise {A} e.

Definition bind {A B : Type} (r : res A) (k : A -> res B) : res B :=
  match r with
  | Ok a => k a
  | Raise e => Raise e
  end.

Notation "x <- r ;; k" := (bind r (fun x => k))
  (at level 61, r at next level, right associativity).

(** ** Python's builtins on numbers *)

Definition Qltb (x y : Q) : bool := negb (Qle_bool y x).

(** [min(a, b)] keeps [a] unless [b < a]; [max(a, b)] keeps [a] unless
    [b > a]. *)
Definition py_min (a b : Q) : Q := if Qltb b a then b else a.
Definition py_max (a b : Q) : Q := if Qltb a b then b else a.

(** [a / b] *)
Definition true_div (a b : Q) : res Q :=
  if Qeq_bool b 0 then Raise ZeroDivisionError else Ok (a / b).

(** ** Calibration *)

Definition dry_values : list Q := [14500; 14500; 14500; 14500].
Definition wet_values : list Q := [6000; 6300; 6100; 5800].

Definition scale_moisture (raw_value dry_value wet_value : Q) : res Q :=
  ratio <- true_div (raw_value - wet_value) (dry_value - wet_value) ;;
  Ok (1 - py_max 0 (py_min 1 ratio)).

(** The specification's reading of the same transform. *)
Definition clamp (x lo hi : Q) : Q :=
  if Qltb x lo then lo else if Qltb hi x then hi else x.

Definition scale_moisture_spec (raw dry wet : Q) : Q :=
  1 - clamp ((raw - wet) / (dry - wet)) 0 1.

(** The inversion named by the specification; the program has no such
    function. *)
Definition unscale_moisture (scaled dry wet : Q) : Q :=
  dry - scaled * (dry - wet).

(** ** The calibration in binary64 *)

Module Binary64.
Import Floats.
Local Open Scope float_scope.

Definition py_min (a b : float) : float := if PrimFloat.ltb b a then b else a.
Definition py_max (a b : float) : float := if PrimFloat.ltb a b then b else a.

Definition true_div (a b : float) : res float :=
  if PrimFloat.eqb b 0 then Raise ZeroDivisionError else Ok (a / b).

Definition scale_moisture (raw_value dry_value wet_value : float) : res float :=
  ratio <- true_div (raw_value - wet_value) (dry_value - wet_value) ;;
  Ok (1 - py_max 0 (py_min 1 ratio)).

Definition unscale_moisture (scaled dry wet : float) : float :=
  dry - scaled * (dry - wet).

Definition of_Z (z : Z) : float :=
  if (z <? 0)%Z
  then - PrimFloat.of_uint63 (Uint63.of_Z (- z))
  else PrimFloat.of_uint63 (Uint63.of_Z z).

(** The calibration points of the four sensors, dry then wet, and the raw
    values a 16-bit converter can deliver, read as signed or as unsigned. *)
Definition calibration : list (Z * Z) :=
  [(14500, 6000); (14500, 6300); (14500, 6100); (14500, 5800)]%Z.

Fixpoint Zrange (lo : Z) (n : nat) : list Z :=
  match n with
  | O => []
  | S n' => lo :: Zrange (lo + 1) n'
  end.

Definition adc_values : list Z := Zrange (-32768) (Z.to_nat 98304).

(** What C1 and C7 say of one raw value and the next: the result lies in
    [[0, 1]], is 1 up to [wet] and 0 from [dry] on, and does not increase. *)
Definition adc_ok (dry wet raw : Z) : bool :=
  match scale_moisture (of_Z raw) (of_Z dry) (of_Z wet),
        scale_moisture (of_Z (raw + 1)) (of_Z dry) (of_Z wet) with
  | Ok v, Ok v' =>
    PrimFloat.leb 0 v && PrimFloat.leb v 1 && PrimFloat.leb v' v
    && (if (raw <=? wet)%Z then PrimFloat.eqb v 1 else true)
    && (if (dry <=? raw)%Z then PrimFloat.eqb v 0 else true)
  | _, _ => false
  end.

(** The round trip as the specification states it, on one reading. *)
Definition round_trip (raw dry wet : float) : Prop :=
  PrimFloat.eqb dry wet = false ->
  forall s, scale_moisture raw dry wet = Ok s ->
            PrimFloat.ltb 0 s = true -> PrimFloat.ltb s 1 = true ->
            PrimFloat.eqb (unscale_moisture s dry wet) raw = true.

(** [groupby(...).mean()] on the values of one group: a compensated
    (Kahan) sum, then the division by the count; NaN on an empty group. *)
Fixpoint kahan_sum (values : list float) (sumx compensation : float) : float :=
  match values with
  | [] => sumx
  | val :: rest =>
    let y := val - compensation in
    let t := sumx + y in
    let c := t - sumx - y in
    kahan_sum rest t (if PrimFloat.eqb c c then c else 0)
  end.

Definition count (values : list float) : float :=
  PrimFloat.of_uint63 (Uint63.of_Z (Z.of_nat (length values))).

Definition mean (values : list float) : option float :=
  match values with
  | [] => None
  | _ => Some (kahan_sum values 0 0 / count values)
  end.

(** The float that the CSV text [0.1] parses to, and a bin of three such
    readings. *)
Definition one_tenth : float := 0x1.999999999999ap-4.
Definition three_tenths : list float := [one_tenth; one_tenth; one_tenth].

(** What C10 says of the mean of one bin. *)
Definition mean_within_range (values : list float) : Prop :=
  forall lo hi m,
    Forall (fun v => PrimFloat.leb lo v = true /\ PrimFloat.leb v hi = true) values ->
    mean values = Some m ->
    PrimFloat.leb lo m = true /\ PrimFloat.leb m hi = true.
End Binary64.

(** ** Frames *)

(** One CSV row after [read_csv] and [to_datetime]. *)
Record reading : Type := mkReading {
  Timestamp : Z;
  Soil_Moisture_1 : Q;
  Soil_Moisture_2 : Q;
  Soil_Moisture_3 : Q;
  Soil_Moisture_4 : Q;
  Temperature_C : Q;
  Pressure_hPa : Q;
  Humidity_percent : Q
}.

(** Insertion sort, stable; stands for [sort_values] and for the ordering
    that [median] and [quantile] do themselves. *)
Section Sorting.
Context {A : Type} (leb : A -> A -> bool).

Fixpoint insert_sorted (a : A) (l : list A) : list A :=
  match l with
  | [] => [a]
  | h :: t => if leb a h then a :: l else h :: insert_sorted a t
  end.

Definition sort_by (l : list A) : list A := fold_right insert_sorted [] l.
End Sorting.

Definition sort_values {row : Type} (x_col : row -> Z) (df : list row) : list row :=
  sort_by (fun a b => (x_col a <=? x_col b)%Z) df.

(** ** Aggregations: [mean], [median], [max] *)

Definition Qsum (l : list Q) : Q := fold_right Qplus 0 l.

(** [None] is NaN (or NaT): what pandas returns on an empty group. *)
Definition mean (l : list Q) : option Q :=
  match l with
  | [] => None
  | _ => Some (Qsum l / inject_Z (Z.of_nat (length l)))
  end.

Definition median (l : list Q) : option Q :=
  match l with
  | [] => None
  | _ =>
    let s := sort_by Qle_bool l in
    let n := length s in
    if Nat.even n
    then Some ((nth (n / 2 - 1) s 0 + nth (n / 2) s 0) / 2)
    else Some (nth (n / 2) s 0)
  end.

(** A value between two bounds. *)
Definition within (lo hi : Q) (v : Q) : Prop := lo <= v <= hi.

Definition max_Z (l : list Z) : option Z :=
  match l with
  | [] => None
  | h :: t => Some (fold_left Z.max t h)
  end.

(** ** The window filter of [save_plot] *)

(** Rounding to the nearest integer, ties to even: how [timedelta] rounds a
    fraction of a microsecond. *)
Definition round_half_even (x : Q) : Z :=
  let f := Qfloor x in
  let d := x - inject_Z f in
  if Qltb d (1 # 2) then f
  else if Qltb (1 # 2) d then (f + 1)%Z
  else if Z.even f then f else (f + 1)%Z.

Definition us_per_hour : Q := 3600000000.

(** [timedelta(hours=hours)], in nanoseconds: a whole number of
    microseconds. *)
Definition timedelta (hours : Q) : Z :=
  (1000 * round_half_even (hours * us_per_hour))%Z.

(** [df[df["Timestamp"] >= latest_time - timedelta(hours=hours)]]; on an
    empty frame [latest_time] is NaT and every comparison is false. *)
Definition df_last_24h (df : list reading) (hours : Q) : list reading :=
  match max_Z (map Timestamp df) with
  | None => []
  | Some latest_time =>
    filter (fun r => (latest_time - timedelta hours <=? Timestamp r)%Z) df
  end.

(** The rows the specification says the window keeps. *)
Definition window_spec (df : list reading) (latest : Z) (hours : Q) : list reading :=
  filter (fun r => (latest - timedelta hours <=? Timestamp r)%Z
                   && (Timestamp r <=? latest)%Z) df.

(** A frame row with one value in every sensor column. *)
Definition sample_reading (t : Z) (v : Q) : reading := mkReading t v v v v v v v.

(** ** [qcut] *)

Definition linspace01 (q : nat) : list Q :=
  map (fun j => inject_Z (Z.of_nat j) / inject_Z (Z.of_nat q)) (seq 0 (S q)).

(** Linear interpolation between the two order statistics around the
    fractional position [h]. *)
Definition interpolate (s : list Z) (h : Q) : Q :=
  let last := (Z.of_nat (length s) - 1)%Z in
  let lo := Qfloor h in
  let hi := Z.min (lo + 1) last in
  let a := inject_Z (nth (Z.to_nat lo) s 0%Z) in
  let b := inject_Z (nth (Z.to_nat hi) s 0%Z) in
  a + (h - inject_Z lo) * (b - a).

(** Sample quantile of the ordered sample; NaN on an empty sample. *)
Definition quantile (xs : list Z) (p : Q) : option Q :=
  match xs with
  | [] => None
  | _ =>
    let s := sort_by Z.leb xs in
    Some (interpolate s (p * inject_Z (Z.of_nat (length s) - 1)))
  end.

(** The quantiles of a sample with at least one value, as numbers. *)
Definition quantile_edges (xs : list Z) (q : nat) : list Q :=
  let s := sort_by Z.leb xs in
  map (fun p => interpolate s (p * inject_Z (Z.of_nat (length s) - 1)))
      (linspace01 q).

Definition edge_eqb (a b : option Q) : bool :=
  match a, b with
  | Some x, Some y => Qeq_bool x y
  | None, None => true
  | _, _ => false
  end.

(** [algos.unique]: first occurrences, in order. *)
Fixpoint unique {A : Type} (eqb : A -> A -> bool) (l : list A) : list A :=
  match l with
  | [] => []
  | x :: t => x :: filter (fun y => negb (eqb x y)) (unique eqb t)
  end.

(** What [_bins_to_cuts] does with [duplicates='drop']: the unique edges
    replace the edges when some edge repeats, unless there are just two
    edges. *)
Definition drop_duplicates {A : Type} (eqb : A -> A -> bool) (bins : list A) : list A :=
  let unique_bins := unique eqb bins in
  if (length unique_bins <? length bins)%nat && negb (length bins =? 2)%nat
  then unique_bins
  else bins.

(** The edges [qcut] keeps. *)
Definition qcut_bins (xs : list Z) (q : nat) : list (option Q) :=
  drop_duplicates edge_eqb (map (quantile xs) (linspace01 q)).

(** The edges kept for a sample with at least one value, as numbers. *)
Definition kept_edges (xs : list Z) (q : nat) : list Q :=
  drop_duplicates Qeq_bool (quantile_edges xs q).

Abbreviation interval := (Q * Q)%type.

(** The intervals between consecutive edges. *)
Definition consecutive (edges : list Q) : list interval :=
  combine edges (tl edges).

(** [IntervalIndex.from_breaks] followed by the construction of the
    categories, which refuses a null interval. *)
Fixpoint from_breaks (breaks : list (option Q)) : res (list interval) :=
  match breaks with
  | a :: (b :: _) as rest =>
    match a, b with
    | Some l, Some r => ivs <- from_breaks rest ;; Ok ((l, r) :: ivs)
    | _, _ => Raise ValueError
    end
  | _ => Ok []
  end.

(** The entries of a column that are not missing. *)
Definition present {A : Type} (l : list (option A)) : list A :=
  flat_map (fun e => match e with Some v => [v] | None => [] end) l.

(** [searchsorted(side='left')]: the first position whose edge is not below
    [x]. *)
Fixpoint searchsorted_left (bins : list Q) (x : Q) : nat :=
  match bins with
  | [] => O
  | b :: t => if Qltb b x then S (searchsorted_left t x) else O
  end.

(** The category code of one value: [include_lowest] moves the lowest edge
    into the first interval, and a value on no interval gets NaN. *)
Definition bin_code (bins : list Q) (x : Q) : option nat :=
  let ids :=
    match bins with
    | b0 :: _ => if Qeq_bool x b0 then 1%nat else searchsorted_left bins x
    | [] => searchsorted_left bins x
    end in
  if (ids =? 0)%nat || (ids =? length bins)%nat then None else Some (ids - 1)%nat.

(** The specification's reading of a bin: a right-closed interval, the first
    of which also takes its left edge. *)
Definition in_interval (iv : interval) (first : bool) (x : Q) : bool :=
  (Qltb (fst iv) x && Qle_bool x (snd iv)) || (first && Qeq_bool x (fst iv)).

(** ** [smooth_data] *)

Record smoothed_row : Type := mkSmoothed {
  Bin : interval;
  value : option Q;
  bin_Timestamp : option Q
}.

Definition code_is (c : nat) (o : option nat) : bool :=
  match o with
  | Some c' => (c' =? c)%nat
  | None => false
  end.

(** The rows of the group of category [c]. *)
Definition group {row : Type} (x_col : row -> Z) (bins : list Q)
    (df : list row) (c : nat) : list row :=
  filter (fun r => code_is c (bin_code bins (inject_Z (x_col r)))) df.

(** The output row of one category: the mean of [y_col] and the median of
    [x_col] over its group. *)
Definition bin_row {row : Type} (x_col : row -> Z) (y_col : row -> Q)
    (bins : list Q) (df : list row) (ci : nat * interval) : smoothed_row :=
  let g := group x_col bins df (fst ci) in
  {| Bin := snd ci;
     value := mean (map y_col g);
     bin_Timestamp := median (map (fun r => inject_Z (x_col r)) g) |}.

Definition smooth_data {row : Type} (df : list row) (x_col : row -> Z)
    (y_col : row -> Q) (num_bins : nat) : res (list smoothed_row) :=
  let df := sort_values x_col df in
  let bins := qcut_bins (map x_col df) num_bins in
  categories <- from_breaks bins ;;
  Ok (map (bin_row x_col y_col (present bins) df)
          (combine (seq 0 (length categories)) categories)).

(** What [smooth_data] returns on a frame with at least one row. *)
Definition smoothed_frame {row : Type} (df : list row) (x_col : row -> Z)
    (y_col : row -> Q) (num_bins : nat) : list smoothed_row :=
  let sorted := sort_values x_col df in
  let bins := kept_edges (map x_col sorted) num_bins in
  map (bin_row x_col y_col bins sorted)
      (combine (seq 0 (length (consecutive bins))) (consecutive bins)).

(** The rows of a frame that fall into the bin of output row [i]. *)
Definition bin_members {row : Type} (x_col : row -> Z) (df : list row)
    (i : nat) (r : smoothed_row) : list row :=
  filter (fun d => in_interval (Bin r) (i =? 0)%nat (inject_Z (x_col d))) df.


(** C10 read to the letter: every output row carries a value, and the value
    lies between the two bounds. *)
Definition every_value_within {row : Type} (df : list row) (x_col : row -> Z)
    (y_col : row -> Q) (num_bins : nat) (lo hi : Q) : Prop :=
  exists out,
    smooth_data df x_col y_col num_bins = Ok out
    /\ forall r, In r out -> exists v, value r = Some v /\ lo <= v <= hi.

(** ** [save_plot] *)

Definition csv_file : string := "/media/bigdata/plant_station/all_plant_data.csv".

(** What [read_csv] finds at [csv_file]: a file without a single byte has no
    columns to parse; otherwise a table, whose [Timestamp] column
    [to_datetime] either rejects or parses. *)
Inductive csv_contents : Type :=
| NoColumns
| UnparseableTimestamps
| Table (rows : list reading).

Inductive message : Type :=
| CsvNotFound (path : string)
| ErrorParsingTimestamps (e : exn)
| NoDataAvailable (hours : Q)
| PlotSaved (path : string).

(** One [ax.plot(x, y)] call. *)
Record line : Type := mkLine {
  xdata : list (option Q);
  ydata : list (option Q)
}.

Record figure : Type := mkFigure {
  time_span : Z * Z;
  median_values : list (option Q);
  ax1 : list line;
  ax2 : line;
  ax22 : line;
  ax3 : line;
  ax32 : line
}.

(** The part of the machine [save_plot] reads and writes. *)
Record world : Type := mkWorld {
  csv : option csv_contents;
  stdout : list message;
  images : list (string * figure)
}.

Definition print (m : message) (w : world) : world :=
  {| csv := csv w; stdout := stdout w ++ [m]; images := images w |}.

Definition savefig (path : string) (fig : figure) (w : world) : world :=
  {| csv := csv w; stdout := stdout w; images := (path, fig) :: images w |}.

(** The frame [read_csv] returns: [None] when the text of its [Timestamp]
    column is not a date, the rows otherwise. *)
Definition read_csv (c : csv_contents) : res (option (list reading)) :=
  match c with
  | NoColumns => Raise EmptyDataError
  | UnparseableTimestamps => Ok None
  | Table rows => Ok (Some rows)
  end.

Definition to_datetime (raw : option (list reading)) : res (list reading) :=
  match raw with
  | Some rows => Ok rows
  | None => Raise ValueError
  end.

Fixpoint map_res {A B : Type} (f : A -> res B) (l : list A) : res (list B) :=
  match l with
  | [] => Ok []
  | a :: t => b <- f a ;; bs <- map_res f t ;; Ok (b :: bs)
  end.

Definition get_moisture (i : nat) (r : reading) : Q :=
  match i with
  | 0%nat => Soil_Moisture_1 r
  | 1%nat => Soil_Moisture_2 r
  | 2%nat => Soil_Moisture_3 r
  | _ => Soil_Moisture_4 r
  end.

Definition set_moisture (i : nat) (v : Q) (r : reading) : reading :=
  match i with
  | 0%nat => mkReading (Timestamp r) v (Soil_Moisture_2 r) (Soil_Moisture_3 r)
               (Soil_Moisture_4 r) (Temperature_C r) (Pressure_hPa r) (Humidity_percent r)
  | 1%nat => mkReading (Timestamp r) (Soil_Moisture_1 r) v (Soil_Moisture_3 r)
               (Soil_Moisture_4 r) (Temperature_C r) (Pressure_hPa r) (Humidity_percent r)
  | 2%nat => mkReading (Timestamp r) (Soil_Moisture_1 r) (Soil_Moisture_2 r) v
               (Soil_Moisture_4 r) (Temperature_C r) (Pressure_hPa r) (Humidity_percent r)
  | _ => mkReading (Timestamp r) (Soil_Moisture_1 r) (Soil_Moisture_2 r)
               (Soil_Moisture_3 r) v (Temperature_C r) (Pressure_hPa r) (Humidity_percent r)
  end.

(** One turn of the loop [for i in range(4)]: the column is replaced by its
    image under [scale_moisture]. *)
Definition apply_scale (i : nat) (df : list reading) : res (list reading) :=
  map_res
    (fun r =>
       s <- scale_moisture (get_moisture i r) (nth i dry_values 0) (nth i wet_values 0) ;;
       Ok (set_moisture i s r))
    df.

Definition calibrate (df : list reading) : res (list reading) :=
  df <- apply_scale 0 df ;;
  df <- apply_scale 1 df ;;
  df <- apply_scale 2 df ;;
  apply_scale 3 df.

Definition columns_to_smooth : list (reading -> Q) :=
  [Soil_Moisture_1; Soil_Moisture_2; Soil_Moisture_3; Soil_Moisture_4;
   Temperature_C; Pressure_hPa; Humidity_percent].

(** The default of [smooth_data]'s [num_bins]. *)
Definition default_num_bins : nat := 100.

(** matplotlib refuses two sequences of different lengths. *)
Definition plot (x y : list (option Q)) : res line :=
  if (length x =? length y)%nat then Ok (mkLine x y) else Raise ValueError.

Definition fahrenheit (c : option Q) : option Q :=
  match c with
  | Some v => Some (v * 9 / 5 + 32)
  | None => None
  end.

Definition min_Z (l : list Z) : option Z :=
  match l with
  | [] => None
  | h :: t => Some (fold_left Z.min t h)
  end.

(** [save_plot] from the calibration to the figure handed to [savefig]. *)
Definition render (window : list reading) (latest_time : Z) : res figure :=
  let earliest_time :=
    match min_Z (map Timestamp window) with Some t => t | None => latest_time end in
  window <- calibrate window ;;
  let medians := map (fun i => median (map (get_moisture i) window)) (seq 0 4) in
  smoothed_data <-
    map_res (fun col => smooth_data window Timestamp col default_num_bins)
            columns_to_smooth ;;
  let series (k : nat) := map value (nth k smoothed_data []) in
  let smoothed_time := map bin_Timestamp (nth 0 smoothed_data []) in
  moisture <- map_res (fun i => plot smoothed_time (series i)) (seq 0 4) ;;
  temperature_c <- plot smoothed_time (series 4%nat) ;;
  temperature_f <- plot smoothed_time (map fahrenheit (series 4%nat)) ;;
  pressure <- plot smoothed_time (series 5%nat) ;;
  humidity <- plot smoothed_time (series 6%nat) ;;
  Ok {| time_span := (earliest_time, latest_time);
        median_values := medians;
        ax1 := moisture;
        ax2 := temperature_c;
        ax22 := temperature_f;
        ax3 := pressure;
        ax32 := humidity |}.

Definition is_empty {A : Type} (l : list A) : bool :=
  match l with
  | [] => true
  | _ => false
  end.

(** The calibrated frame and the figure, written out for a window with at
    least one row and the calibration constants of the script. *)
Definition scaled_value (i : nat) (r : reading) : Q :=
  1 - py_max 0 (py_min 1 ((get_moisture i r - nth i wet_values 0)
                          / (nth i dry_values 0 - nth i wet_values 0))).

Definition scaled_row (i : nat) (r : reading) : reading :=
  set_moisture i (scaled_value i r) r.

Definition calibrated (df : list reading) : list reading :=
  map (scaled_row 3) (map (scaled_row 2) (map (scaled_row 1) (map (scaled_row 0) df))).

Definition figure_of (window : list reading) (latest_time : Z) : figure :=
  let w := calibrated window in
  let sm (col : reading -> Q) := smoothed_frame w Timestamp col default_num_bins in
  let smoothed_time := map bin_Timestamp (sm Soil_Moisture_1) in
  {| time_span :=
       (match min_Z (map Timestamp window) with Some t => t | None => latest_time end,
        latest_time);
     median_values := map (fun i => median (map (get_moisture i) w)) (seq 0 4);
     ax1 := [mkLine smoothed_time (map value (sm Soil_Moisture_1));
             mkLine smoothed_time (map value (sm Soil_Moisture_2));
             mkLine smoothed_time (map value (sm Soil_Moisture_3));
             mkLine smoothed_time (map value (sm Soil_Moisture_4))];
     ax2 := mkLine smoothed_time (map value (sm Temperature_C));
     ax22 := mkLine smoothed_time (map fahrenheit (map value (sm Temperature_C)));
     ax3 := mkLine smoothed_time (map value (sm Pressure_hPa));
     ax32 := mkLine smoothed_time (map value (sm Humidity_percent)) |}.

(** The lines that draw the seven smoothed columns, in the order of
    [columns_to_smooth]. *)
Definition plotted_series (fig : figure) : list line :=
  ax1 fig ++ [ax2 fig; ax3 fig; ax32 fig].

(** The result of a call: how it ended, and the machine it leaves. *)
Definition save_plot (hours : Q) (output_image : string) (w : world)
    : res unit * world :=
  match csv w with
  | None => (Ok tt, print (CsvNotFound csv_file) w)
  | Some contents =>
    match read_csv contents with
    | Raise e => (Raise e, w)
    | Ok raw =>
      match to_datetime raw with
      | Raise e => (Ok tt, print (ErrorParsingTimestamps e) w)
      | Ok df =>
        let df := sort_values Timestamp df in
        let window := df_last_24h df hours in
        if is_empty window then (Ok tt, print (NoDataAvailable hours) w)
        else
          let latest_time :=
            match max_Z (map Timestamp df) with Some t => t | None => 0%Z end in
          match render window latest_time with
          | Raise e => (Raise e, w)
          | Ok fig => (Ok tt, print (PlotSaved output_image) (savefig output_image fig w))
          end
      end
    end
  end.

(** The five calls at the end of the script; an exception that leaves a
    call ends the script. *)
Definition calls : list (Q * string) :=
  [(24, "/media/bigdata/plant_station/last_24h_plant_plot.png");
   (1, "/media/bigdata/plant_station/last_1h_plant_plot.png");
   (168, "/media/bigdata/plant_station/last_week_plant_plot.png");
   (720, "/media/bigdata/plant_station/last_month_plant_plot.png");
   (8760, "/media/bigdata/plant_station/last_year_plant_plot.png")]%string.

Fixpoint run (cs : list (Q * string)) (w : world) : res unit * world :=
  match cs with
  | [] => (Ok tt, w)
  | (hours, output_image) :: rest =>
    match save_plot hours output_image w with
    | (Ok _, w') => run rest w'
    | (Raise e, w') => (Raise e, w')
    end
  end.

Definition script (w : world) : res unit * world := run calls w.

(** The calls the specification counts as skips, and what it says of a
    call. *)
Definition csv_empty (c : csv_contents) : Prop :=
  c = NoColumns \/ c = Table [].

Definition skip_condition (hours : Q) (w : world) : Prop :=
  csv w = None
  \/ (exists c, csv w = Some c /\ csv_empty c)
  \/ csv w = Some UnparseableTimestamps
  \/ (exists rows, csv w = Some (Table rows)
                   /\ df_last_24h (sort_values Timestamp rows) hours = []).

Definition skipped (r : res unit * world) (w : world) : Prop :=
  exists m, r = (Ok tt, print m w) /\ forall path, m <> PlotSaved path.

Definition plotted (r : res unit * world) (output_image : string) (w : world) : Prop :=
  exists fig,
    r = (Ok tt, print (PlotSaved output_image) (savefig output_image fig w)).

Definition skips_or_plots (hours : Q) (output_image : string) (w : world) : Prop :=
  (skip_condition hours w -> skipped (save_plot hours output_image w) w)
  /\ (~ skip_condition hours w -> plotted (save_plot hours output_image w) output_image w).

(** ** Reading the smoothed frame *)

(** The rows of a frame with their positions. *)
Definition enumerate {A : Type} (l : list A) : list (nat * A) :=
  combine (seq 0 (length l)) l.

(** The number of frame rows in the bin of an output row, and that number
    times the mean the row carries (nothing for a bin without rows). *)
Definition population {row : Type} (x_col : row -> Z) (df : list row)
    (ir : nat * smoothed_row) : nat :=
  length (bin_members x_col df (fst ir) (snd ir)).

Definition weighted_value {row : Type} (x_col : row -> Z) (df : list row)
    (ir : nat * smoothed_row) : Q :=
  match value (snd ir) with
  | Some v => inject_Z (Z.of_nat (population x_col df ir)) * v
  | None => 0
  end.

(** [v'] is [a * v + b], or both are missing. *)
Definition affine_image (a b : Q) (v v' : option Q) : Prop :=
  match v, v' with
  | Some m, Some m' => m' == a * m + b
  | None, None => True
  | _, _ => False
  end.

(** Every line of a figure: the seven smoothed columns and the Fahrenheit
    copy of the temperature. *)
Definition all_lines (fig : figure) : list line :=
  ax22 fig :: plotted_series fig.

(** * Properties *)

(** ** Comparisons and the builtins *)

Lemma Qltb_lt (x y : Q) : Qltb x y = true <-> x < y.
Proof.
  unfold Qltb. rewrite negb_true_iff.
  split; intro H.
  - apply Qnot_le_lt. intro L. apply Qle_bool_iff in L. congruence.
  - destruct (Qle_bool y x) eqn:E; [|reflexivity].
    apply Qle_bool_iff in E. exfalso. apply (Qlt_not_le _ _ H E).
Qed.

Lemma Qltb_ge (x y : Q) : Qltb x y = false <-> y <= x.
Proof.
  unfold Qltb. rewrite negb_false_iff. apply Qle_bool_iff.
Qed.

(** Case analysis on every comparison of the goal and of the hypotheses. *)
Ltac case_Qltb :=
  repeat match goal with
  | |- context [Qltb ?a ?b] =>
    let E := fresh "E" in
    destruct (Qltb a b) eqn:E;
    [apply Qltb_lt in E | apply Qltb_ge in E]
  | H : context [Qltb ?a ?b] |- _ =>
    let E := fresh "E" in
    destruct (Qltb a b) eqn:E;
    [apply Qltb_lt in E | apply Qltb_ge in E]
  end.

Lemma true_div_Ok (a b : Q) : ~ b == 0 -> true_div a b = Ok (a / b).
Proof.
  intro H. unfold true_div.
  destruct (Qeq_bool b 0) eqn:E; [|reflexivity].
  apply Qeq_bool_eq in E. contradiction.
Qed.

Lemma true_div_zero (a b : Q) : b == 0 -> true_div a b = Raise ZeroDivisionError.
Proof.
  intro H. unfold true_div. rewrite (Qeq_eq_bool _ _ H). reflexivity.
Qed.

(** ** [scale_moisture] *)

Lemma scale_moisture_Ok (raw dry wet : Q) :
  ~ dry == wet ->
  scale_moisture raw dry wet
  = Ok (1 - py_max 0 (py_min 1 ((raw - wet) / (dry - wet)))).
Proof.
  intro H. unfold scale_moisture.
  rewrite true_div_Ok; [reflexivity|].
  intro D. apply H. lra.
Qed.

Lemma scale_moisture_undefined (raw dry wet : Q) :
  dry == wet -> scale_moisture raw dry wet = Raise ZeroDivisionError.
Proof.
  intro H. unfold scale_moisture. rewrite true_div_zero; [reflexivity|lra].
Qed.

Lemma scale_moisture_range (raw dry wet s : Q) :
  scale_moisture raw dry wet = Ok s -> 0 <= s <= 1.
Proof.
  unfold scale_moisture, true_div.
  destruct (Qeq_bool (dry - wet) 0); simpl; [discriminate|].
  intro H. injection H as <-.
  unfold py_max, py_min.
  generalize ((raw - wet) / (dry - wet)). intro r. case_Qltb; lra.
Qed.

(** C1: for [dry <> wet] the transform returns [1 - clamp((raw - wet) /
    (dry - wet), 0, 1)], and the result lies in [[0, 1]]. *)
Theorem scale_moisture_is_clamp (raw dry wet : Q) :
  ~ dry == wet ->
  exists s, scale_moisture raw dry wet = Ok s
            /\ s == scale_moisture_spec raw dry wet
            /\ 0 <= s <= 1.
Proof.
  intro H. eexists. split; [apply scale_moisture_Ok, H|].
  split.
  - unfold scale_moisture_spec, clamp, py_max, py_min.
    generalize ((raw - wet) / (dry - wet)). intro r. case_Qltb; lra.
  - apply (scale_moisture_range raw dry wet). apply scale_moisture_Ok, H.
Qed.

Lemma scale_moisture_is_clamp_witness :
  ~ 14500 == 6000 /\
  exists s, scale_moisture 7000 14500 6000 = Ok s
            /\ s == scale_moisture_spec 7000 14500 6000
            /\ 0 <= s <= 1.
Proof.
  assert (H : ~ 14500 == 6000) by (intro E; discriminate E).
  split; [exact H | exact (scale_moisture_is_clamp 7000 14500 6000 H)].
Defined.

Lemma ratio_monotone (a b d : Q) : 0 < d -> a <= b -> a / d <= b / d.
Proof.
  intros Hd Hab. unfold Qdiv.
  apply Qmult_le_compat_r; [exact Hab|].
  apply Qlt_le_weak, Qinv_lt_0_compat, Hd.
Qed.

Lemma ratio_nonpos (a d : Q) : 0 < d -> a <= 0 -> a / d <= 0.
Proof.
  intros Hd Ha. pose proof (ratio_monotone a 0 d Hd Ha) as M.
  assert (Z : 0 / d == 0) by (unfold Qdiv; ring).
  rewrite Z in M. exact M.
Qed.

Lemma ratio_ge_1 (a d : Q) : 0 < d -> d <= a -> 1 <= a / d.
Proof.
  intros Hd Ha. pose proof (ratio_monotone d a d Hd Ha) as M.
  assert (Z : d / d == 1) by (field; lra).
  rewrite Z in M. exact M.
Qed.

(** C7: with [wet < dry] the transform is 1 up to [wet], 0 from [dry] on,
    and non-increasing in the raw value. *)
Theorem scale_moisture_endpoints_monotone (dry wet : Q) :
  wet < dry ->
  (forall raw, raw <= wet -> exists s, scale_moisture raw dry wet = Ok s /\ s == 1)
  /\ (forall raw, dry <= raw -> exists s, scale_moisture raw dry wet = Ok s /\ s == 0)
  /\ (forall raw1 raw2, raw1 <= raw2 ->
       exists s1 s2, scale_moisture raw1 dry wet = Ok s1
                     /\ scale_moisture raw2 dry wet = Ok s2
                     /\ s2 <= s1).
Proof.
  intro Hwd.
  assert (Hne : ~ dry == wet) by lra.
  assert (Hd : 0 < dry - wet) by lra.
  repeat split.
  - intros raw Hraw. eexists. split; [apply scale_moisture_Ok, Hne|].
    pose proof (ratio_nonpos (raw - wet) (dry - wet) Hd ltac:(lra)) as R.
    revert R. unfold py_max, py_min.
    generalize ((raw - wet) / (dry - wet)). intros r R. case_Qltb; lra.
  - intros raw Hraw. eexists. split; [apply scale_moisture_Ok, Hne|].
    pose proof (ratio_ge_1 (raw - wet) (dry - wet) Hd ltac:(lra)) as R.
    revert R. unfold py_max, py_min.
    generalize ((raw - wet) / (dry - wet)). intros r R. case_Qltb; lra.
  - intros raw1 raw2 Hle. do 2 eexists.
    split; [apply scale_moisture_Ok, Hne|].
    split; [apply scale_moisture_Ok, Hne|].
    pose proof (ratio_monotone (raw1 - wet) (raw2 - wet) (dry - wet) Hd ltac:(lra)) as R.
    revert R. unfold py_max, py_min.
    generalize ((raw1 - wet) / (dry - wet)), ((raw2 - wet) / (dry - wet)).
    intros r1 r2 R. case_Qltb; lra.
Qed.

Lemma scale_moisture_endpoints_monotone_witness :
  6000 < 14500 /\
  (exists s, scale_moisture 5000 14500 6000 = Ok s /\ s == 1) /\
  (exists s, scale_moisture 15000 14500 6000 = Ok s /\ s == 0) /\
  (exists s1 s2, scale_moisture 7000 14500 6000 = Ok s1
                 /\ scale_moisture 8000 14500 6000 = Ok s2 /\ s2 <= s1).
Proof.
  assert (H : 6000 < 14500) by reflexivity.
  destruct (scale_moisture_endpoints_monotone 14500 6000 H) as (A & B & C).
  split; [exact H|].
  split; [apply A; discriminate|].
  split; [apply B; discriminate|].
  apply C. discriminate.
Defined.

(** C8, in exact arithmetic: when the scaled value lies strictly between 0
    and 1, [dry - scaled * (dry - wet)] is the raw value again, and the raw
    value lies strictly between [wet] and [dry]. *)
Theorem unscale_scale (raw dry wet s : Q) :
  ~ dry == wet ->
  scale_moisture raw dry wet = Ok s ->
  0 < s < 1 ->
  unscale_moisture s dry wet == raw
  /\ (wet < raw < dry \/ dry < raw < wet).
Proof.
  intros Hne Hs Hrange.
  rewrite (scale_moisture_Ok raw dry wet Hne) in Hs. injection Hs as <-.
  assert (Hr : (raw - wet) / (dry - wet) * (dry - wet) == raw - wet).
  { field. intro D. apply Hne. lra. }
  revert Hrange Hr. unfold unscale_moisture, py_max, py_min.
  generalize ((raw - wet) / (dry - wet)). intros r Hrange Hr.
  case_Qltb; try lra.
  split; [lra|].
  destruct (Qlt_le_dec wet dry) as [Hlt|Hge].
  - left. nra.
  - right.
    assert (Hlt : dry < wet).
    { destruct (Qle_lt_or_eq _ _ Hge) as [L|L]; [exact L|]. exfalso. apply Hne, L. }
    nra.
Qed.

Lemma unscale_scale_witness :
  ~ 14500 == 6000
  /\ scale_moisture 6311 14500 6000 = Ok (8189 # 8500)
  /\ 0 < 8189 # 8500 < 1
  /\ unscale_moisture (8189 # 8500) 14500 6000 == 6311
  /\ (6000 < 6311 < 14500 \/ 14500 < 6311 < 6000).
Proof.
  assert (H1 : ~ 14500 == 6000) by (intro E; discriminate E).
  assert (H2 : scale_moisture 6311 14500 6000 = Ok (8189 # 8500)) by reflexivity.
  assert (H3 : 0 < 8189 # 8500 < 1) by (split; reflexivity).
  destruct (unscale_scale 6311 14500 6000 (8189 # 8500) H1 H2 H3) as [A B].
  repeat split; assumption.
Defined.


(** ** The window filter *)

Lemma fold_left_max_spec (t : list Z) (h : Z) :
  (h <= fold_left Z.max t h)%Z
  /\ Forall (fun x => (x <= fold_left Z.max t h)%Z) t
  /\ (fold_left Z.max t h = h \/ In (fold_left Z.max t h) t).
Proof.
  revert h. induction t as [|a t IH]; intro h; simpl.
  - repeat split; [lia | constructor | left; reflexivity].
  - destruct (IH (Z.max h a)) as (H1 & H2 & H3).
    split; [lia|]. split.
    + constructor; [lia | exact H2].
    + destruct H3 as [H3|H3]; [|right; right; exact H3].
      rewrite H3. destruct (Z.max_spec h a) as [[_ ->]|[_ ->]]; auto.
Qed.

Lemma max_Z_spec (l : list Z) (m : Z) :
  max_Z l = Some m -> In m l /\ Forall (fun x => (x <= m)%Z) l.
Proof.
  destruct l as [|h t]; simpl; [discriminate|].
  intro H. injection H as <-.
  destruct (fold_left_max_spec t h) as (H1 & H2 & H3).
  split; [destruct H3 as [->|H3]; auto|].
  constructor; assumption.
Qed.

Lemma fold_left_min_spec (t : list Z) (h : Z) :
  (fold_left Z.min t h <= h)%Z
  /\ Forall (fun x => (fold_left Z.min t h <= x)%Z) t
  /\ (fold_left Z.min t h = h \/ In (fold_left Z.min t h) t).
Proof.
  revert h. induction t as [|a t IH]; intro h; simpl.
  - repeat split; [lia | constructor | left; reflexivity].
  - destruct (IH (Z.min h a)) as (H1 & H2 & H3).
    split; [lia|]. split.
    + constructor; [lia | exact H2].
    + destruct H3 as [H3|H3]; [|right; right; exact H3].
      rewrite H3. destruct (Z.min_spec h a) as [[_ ->]|[_ ->]]; auto.
Qed.

Lemma min_Z_spec (l : list Z) (m : Z) :
  min_Z l = Some m -> In m l /\ Forall (fun x => (m <= x)%Z) l.
Proof.
  destruct l as [|h t]; simpl; [discriminate|].
  intro H. injection H as <-.
  destruct (fold_left_min_spec t h) as (H1 & H2 & H3).
  split; [destruct H3 as [->|H3]; auto|].
  constructor; assumption.
Qed.

Lemma max_Z_nonempty (l : list Z) : l <> [] -> exists m, max_Z l = Some m.
Proof. destruct l; [congruence | intros _; eexists; reflexivity]. Qed.

Lemma filter_all {A : Type} (f : A -> bool) (l : list A) :
  (forall a, In a l -> f a = true) -> filter f l = l.
Proof.
  induction l as [|a l IH]; intro H; simpl; [reflexivity|].
  rewrite (H a (or_introl eq_refl)), IH; [reflexivity|].
  intros b Hb. apply H. right. exact Hb.
Qed.

(** C2: on a frame with a row the window keeps exactly the rows between
    [max - H hours] and [max], and the whole frame when [H] covers its
    span. *)
Theorem window_keeps_last_hours (df : list reading) (hours : Q) :
  df <> [] ->
  exists latest earliest,
    max_Z (map Timestamp df) = Some latest
    /\ min_Z (map Timestamp df) = Some earliest
    /\ df_last_24h df hours = window_spec df latest hours
    /\ (forall r, In r (df_last_24h df hours) <->
                  In r df /\ (latest - timedelta hours <= Timestamp r <= latest)%Z)
    /\ ((latest - earliest <= timedelta hours)%Z -> df_last_24h df hours = df).
Proof.
  intro Hne.
  destruct df as [|r0 df']; [congruence|].
  set (df := r0 :: df') in *.
  destruct (max_Z (map Timestamp df)) as [latest|] eqn:Hmax; [|discriminate].
  destruct (min_Z (map Timestamp df)) as [earliest|] eqn:Hmin; [|discriminate].
  destruct (max_Z_spec _ _ Hmax) as [_ Hle].
  destruct (min_Z_spec _ _ Hmin) as [_ Hge].
  rewrite Forall_forall in Hle, Hge.
  assert (Hub : forall r, In r df -> (Timestamp r <= latest)%Z).
  { intros r Hr. apply Hle. apply in_map. exact Hr. }
  assert (Hlb : forall r, In r df -> (earliest <= Timestamp r)%Z).
  { intros r Hr. apply Hge. apply in_map. exact Hr. }
  assert (Hdef : df_last_24h df hours
                 = filter (fun r => (latest - timedelta hours <=? Timestamp r)%Z) df).
  { unfold df_last_24h. rewrite Hmax. reflexivity. }
  exists latest, earliest. repeat split.
  - rewrite Hdef. unfold window_spec. apply filter_ext_in.
    intros r Hr. apply Hub in Hr.
    apply Z.leb_le in Hr. rewrite Hr, andb_true_r. reflexivity.
  - rewrite Hdef in H. apply filter_In in H. apply H.
  - rewrite Hdef in H. apply filter_In in H. destruct H as [_ H].
    apply Z.leb_le in H. exact H.
  - rewrite Hdef in H. apply filter_In in H. apply Hub, H.
  - intros [Hin [Hlo _]]. rewrite Hdef. apply filter_In.
    split; [exact Hin | apply Z.leb_le; exact Hlo].
  - intro Hspan. rewrite Hdef. apply filter_all.
    intros r Hr. apply Z.leb_le. apply Hlb in Hr. lia.
Qed.

Lemma window_keeps_last_hours_witness :
  let df := [sample_reading 0 7000; sample_reading 7200000000000 8000] in
  df <> [] /\
  exists latest earliest,
    max_Z (map Timestamp df) = Some latest
    /\ min_Z (map Timestamp df) = Some earliest
    /\ df_last_24h df 1 = window_spec df latest 1
    /\ (forall r, In r (df_last_24h df 1) <->
                  In r df /\ (latest - timedelta 1 <= Timestamp r <= latest)%Z)
    /\ ((latest - earliest <= timedelta 1)%Z -> df_last_24h df 1 = df).
Proof.
  intro df.
  assert (H : df <> []) by discriminate.
  split; [exact H | exact (window_keeps_last_hours df 1 H)].
Defined.

Lemma round_half_even_nonneg (x : Q) : 0 <= x -> (0 <= round_half_even x)%Z.
Proof.
  intro H. pose proof (Qfloor_resp_le 0 x H) as F. change (Qfloor 0) with 0%Z in F.
  unfold round_half_even.
  destruct (Qltb (x - inject_Z (Qfloor x)) (1 # 2)); [exact F|].
  destruct (Qltb (1 # 2) (x - inject_Z (Qfloor x))); [lia|].
  destruct (Z.even (Qfloor x)); lia.
Qed.

Lemma timedelta_nonneg (hours : Q) : 0 <= hours -> (0 <= timedelta hours)%Z.
Proof.
  intro H. unfold timedelta.
  assert (Hus : 0 <= hours * us_per_hour)
    by (apply Qmult_le_0_compat; [exact H | discriminate]).
  pose proof (round_half_even_nonneg _ Hus). lia.
Qed.


(** ** Sorting *)

Section SortingFacts.
Context {A : Type} (leb : A -> A -> bool).
Hypothesis leb_total : forall a b, leb a b = true \/ leb b a = true.
Hypothesis leb_trans : forall a b c, leb a b = true -> leb b c = true -> leb a c = true.

Let le (a b : A) : Prop := leb a b = true.

Lemma insert_sorted_perm (a : A) (l : list A) :
  Permutation (insert_sorted leb a l) (a :: l).
Proof.
  induction l as [|h t IH]; simpl; [apply Permutation_refl|].
  destruct (leb a h); [apply Permutation_refl|].
  eapply perm_trans; [apply perm_skip, IH | apply perm_swap].
Qed.

Lemma sort_by_perm (l : list A) : Permutation (sort_by leb l) l.
Proof.
  induction l as [|a l IH]; simpl; [constructor|].
  eapply perm_trans; [apply insert_sorted_perm | apply perm_skip, IH].
Qed.

Lemma sort_by_length (l : list A) : length (sort_by leb l) = length l.
Proof. apply Permutation_length, sort_by_perm. Qed.

Lemma sort_by_In (l : list A) (a : A) : In a (sort_by leb l) <-> In a l.
Proof.
  split; apply Permutation_in; [|apply Permutation_sym]; apply sort_by_perm.
Qed.

Lemma insert_sorted_sorted (a : A) (l : list A) :
  StronglySorted le l -> StronglySorted le (insert_sorted leb a l).
Proof.
  induction 1 as [|h t Hs IH Hall]; simpl.
  - constructor; constructor.
  - destruct (leb a h) eqn:E.
    + constructor; [constructor; assumption|].
      constructor; [exact E|].
      rewrite Forall_forall in *. intros x Hx.
      eapply leb_trans; [exact E | apply Hall, Hx].
    + constructor; [exact IH|].
      rewrite Forall_forall in *. intros x Hx.
      apply (Permutation_in _ (insert_sorted_perm a t)) in Hx.
      destruct Hx as [<-|Hx]; [|apply Hall, Hx].
      destruct (leb_total a h) as [C|C]; [congruence | exact C].
Qed.

Lemma sort_by_sorted (l : list A) : StronglySorted le (sort_by leb l).
Proof.
  induction l as [|a l IH]; simpl; [constructor|].
  apply insert_sorted_sorted, IH.
Qed.
End SortingFacts.

Lemma sort_by_nil_iff {A : Type} (leb : A -> A -> bool) (l : list A) :
  sort_by leb l = [] <-> l = [].
Proof.
  split; intro H.
  - apply length_zero_iff_nil. rewrite <- (sort_by_length leb l), H. reflexivity.
  - subst. reflexivity.
Qed.

Lemma Zsorted_nth (s : list Z) (i j : nat) :
  StronglySorted (fun a b => (a <=? b)%Z = true) s ->
  (i <= j < length s)%nat -> (nth i s 0 <= nth j s 0)%Z.
Proof.
  intro Hs. revert i j. induction Hs as [|h t Hs IH Hall]; intros i j Hij; simpl in *.
  - lia.
  - destruct i as [|i], j as [|j]; try lia.
    + rewrite Forall_forall in Hall. apply Z.leb_le, Hall, nth_In. lia.
    + apply IH. lia.
Qed.

Lemma Zsort_sorted (xs : list Z) :
  StronglySorted (fun a b => (a <=? b)%Z = true) (sort_by Z.leb xs).
Proof.
  apply sort_by_sorted.
  - intros a b. rewrite !Z.leb_le. lia.
  - intros a b c. rewrite !Z.leb_le. lia.
Qed.

(** ** Quantiles *)

Section Interpolation.
Variable s : list Z.
Hypothesis s_sorted : StronglySorted (fun a b => (a <=? b)%Z = true) s.
Hypothesis s_nonempty : s <> [].

Let last : Z := (Z.of_nat (length s) - 1)%Z.

Lemma last_nonneg : (0 <= last)%Z.
Proof.
  assert (length s <> 0)%nat by (rewrite length_zero_iff_nil; exact s_nonempty).
  unfold last. lia.
Qed.

Lemma floor_bounds (h : Q) :
  0 <= h <= inject_Z last -> (0 <= Qfloor h <= last)%Z.
Proof.
  intros [H0 H1]. split.
  - change 0%Z with (Qfloor 0). apply Qfloor_resp_le, H0.
  - rewrite <- (Qfloor_Z last). apply Qfloor_resp_le, H1.
Qed.

Lemma frac_bounds (h : Q) : 0 <= h - inject_Z (Qfloor h) < 1.
Proof.
  pose proof (Qfloor_le h). pose proof (Qlt_floor h) as L.
  rewrite inject_Z_plus in L. change (inject_Z 1) with 1 in L. lra.
Qed.

Lemma order_statistics (i j : Z) :
  (0 <= i <= j)%Z -> (j <= last)%Z ->
  inject_Z (nth (Z.to_nat i) s 0%Z) <= inject_Z (nth (Z.to_nat j) s 0%Z).
Proof.
  intros Hij Hj. rewrite <- Zle_Qle. apply Zsorted_nth; [exact s_sorted|].
  unfold last in Hj. lia.
Qed.

Lemma interpolate_between (h : Q) :
  0 <= h <= inject_Z last ->
  inject_Z (nth (Z.to_nat (Qfloor h)) s 0%Z) <= interpolate s h
  /\ interpolate s h
     <= inject_Z (nth (Z.to_nat (Z.min (Qfloor h + 1) last)) s 0%Z).
Proof.
  intro Hh. pose proof (floor_bounds h Hh) as Hf.
  pose proof (frac_bounds h) as Hg.
  assert (Hab : inject_Z (nth (Z.to_nat (Qfloor h)) s 0%Z)
                <= inject_Z (nth (Z.to_nat (Z.min (Qfloor h + 1) last)) s 0%Z)).
  { apply order_statistics; lia. }
  unfold interpolate. fold last.
  revert Hab Hg.
  generalize (inject_Z (nth (Z.to_nat (Qfloor h)) s 0%Z)).
  generalize (inject_Z (nth (Z.to_nat (Z.min (Qfloor h + 1) last)) s 0%Z)).
  generalize (h - inject_Z (Qfloor h)).
  intros g b a Hab Hg. split; nra.
Qed.

Lemma interpolate_monotone (h h' : Q) :
  0 <= h -> h <= h' -> h' <= inject_Z last ->
  interpolate s h <= interpolate s h'.
Proof.
  intros H0 Hhh H1.
  assert (Hh : 0 <= h <= inject_Z last) by lra.
  assert (Hh' : 0 <= h' <= inject_Z last) by lra.
  pose proof (floor_bounds h Hh) as Hf.
  pose proof (floor_bounds h' Hh') as Hf'.
  pose proof (Qfloor_resp_le h h' Hhh) as Hff.
  destruct (Z.eq_dec (Qfloor h) (Qfloor h')) as [E|NE].
  - pose proof (frac_bounds h) as Hg. pose proof (frac_bounds h') as Hg'.
    assert (Hab : inject_Z (nth (Z.to_nat (Qfloor h')) s 0%Z)
                  <= inject_Z (nth (Z.to_nat (Z.min (Qfloor h' + 1) last)) s 0%Z)).
    { apply order_statistics; lia. }
    unfold interpolate. fold last. rewrite E in *.
    revert Hab.
    generalize (inject_Z (nth (Z.to_nat (Qfloor h')) s 0%Z)).
    generalize (inject_Z (nth (Z.to_nat (Z.min (Qfloor h' + 1) last)) s 0%Z)).
    intros b a Hab.
    assert (0 <= (h' - h) * (b - a)) by (apply Qmult_le_0_compat; lra).
    lra.
  - destruct (interpolate_between h Hh) as [_ Hup].
    destruct (interpolate_between h' Hh') as [Hlow _].
    eapply Qle_trans; [exact Hup|].
    eapply Qle_trans; [|exact Hlow].
    apply order_statistics; lia.
Qed.

Lemma interpolate_first (h : Q) : h == 0 -> interpolate s h == inject_Z (nth 0 s 0%Z).
Proof.
  intro E. unfold interpolate. rewrite (Qfloor_comp _ _ E).
  change (Qfloor 0) with 0%Z. simpl Z.to_nat. rewrite E.
  change (inject_Z 0) with 0. ring.
Qed.

Lemma interpolate_last (h : Q) :
  h == inject_Z last ->
  interpolate s h == inject_Z (nth (Z.to_nat last) s 0%Z).
Proof.
  intro E. unfold interpolate. fold last.
  rewrite (Qfloor_comp _ _ E), Qfloor_Z, E. ring.
Qed.

Lemma sample_between (x : Z) :
  In x s ->
  inject_Z (nth 0 s 0%Z) <= inject_Z x
  /\ inject_Z x <= inject_Z (nth (Z.to_nat last) s 0%Z).
Proof.
  intro Hx. destruct (In_nth s x 0%Z Hx) as (i & Hi & <-).
  pose proof last_nonneg as Hl.
  rewrite <- !Zle_Qle. unfold last in *.
  split; apply Zsorted_nth; try exact s_sorted; lia.
Qed.
End Interpolation.

(** ** Bin edges *)

Lemma StronglySorted_map_seq {A : Type} (R : A -> A -> Prop) (f : nat -> A) (a n : nat) :
  (forall i j, (a <= i < j)%nat -> (j < a + n)%nat -> R (f i) (f j)) ->
  StronglySorted R (map f (seq a n)).
Proof.
  revert a. induction n as [|n IH]; intros a H; simpl; constructor.
  - apply IH. intros i j Hij Hj. apply H; lia.
  - rewrite Forall_forall. intros x Hx.
    apply in_map_iff in Hx. destruct Hx as (j & <- & Hj).
    apply in_seq in Hj. apply H; lia.
Qed.

Lemma StronglySorted_filter {A : Type} (R : A -> A -> Prop) (f : A -> bool) (l : list A) :
  StronglySorted R l -> StronglySorted R (filter f l).
Proof.
  induction 1 as [|a l Hs IH Hall]; simpl; [constructor|].
  destruct (f a); [|exact IH].
  constructor; [exact IH|].
  rewrite Forall_forall in *. intros x Hx. apply filter_In in Hx. apply Hall, Hx.
Qed.

Lemma filter_map_comm {A B : Type} (f : B -> bool) (g : A -> B) (l : list A) :
  filter f (map g l) = map g (filter (fun a => f (g a)) l).
Proof.
  induction l as [|a l IH]; simpl; [reflexivity|].
  destruct (f (g a)); simpl; rewrite IH; reflexivity.
Qed.

Lemma filter_none {A : Type} (f : A -> bool) (l : list A) :
  (forall a, In a l -> f a = false) -> filter f l = [].
Proof.
  induction l as [|a l IH]; intro H; simpl; [reflexivity|].
  rewrite (H a (or_introl eq_refl)). apply IH.
  intros b Hb. apply H. right. exact Hb.
Qed.

Section Unique.
Context {A : Type} (eqb : A -> A -> bool).

Lemma unique_incl (l : list A) (x : A) : In x (unique eqb l) -> In x l.
Proof.
  revert x. induction l as [|a l IH]; simpl; intros x H; [exact H|].
  destruct H as [H|H]; [left; exact H|].
  right. apply IH. apply filter_In in H. apply H.
Qed.

Lemma unique_length (l : list A) : (length (unique eqb l) <= length l)%nat.
Proof.
  induction l as [|a l IH]; simpl; [lia|].
  pose proof (filter_length_le (fun y => negb (eqb a y)) (unique eqb l)). lia.
Qed.

Lemma unique_sorted (R : A -> A -> Prop) (l : list A) :
  StronglySorted R l -> StronglySorted R (unique eqb l).
Proof.
  induction 1 as [|a l Hs IH Hall]; simpl; constructor.
  - apply StronglySorted_filter, IH.
  - rewrite Forall_forall in *. intros x Hx.
    apply filter_In in Hx. apply Hall, unique_incl, Hx.
Qed.

Lemma unique_covers (l : list A) (x : A) :
  (forall a, eqb a a = true) ->
  (forall a b c, eqb a b = true -> eqb b c = true -> eqb a c = true) ->
  In x l -> exists y, In y (unique eqb l) /\ eqb y x = true.
Proof.
  intros Hrefl Htrans. induction l as [|a l IH]; simpl; intro H; [contradiction|].
  destruct H as [->|H].
  - exists x. split; [left; reflexivity | apply Hrefl].
  - destruct (IH H) as (y & Hy & Hyx).
    destruct (eqb a y) eqn:E.
    + exists a. split; [left; reflexivity | eapply Htrans; eassumption].
    + exists y. split; [|exact Hyx].
      right. apply filter_In. split; [exact Hy | rewrite E; reflexivity].
Qed.

Lemma unique_all_equal (x : A) (t : list A) :
  (forall y, In y t -> eqb x y = true) -> unique eqb (x :: t) = [x].
Proof.
  intro H. simpl. f_equal. apply filter_none.
  intros y Hy. rewrite (H y (unique_incl t y Hy)). reflexivity.
Qed.

Lemma drop_duplicates_cases (l : list A) :
  drop_duplicates eqb l = unique eqb l \/ drop_duplicates eqb l = l.
Proof.
  unfold drop_duplicates.
  destruct ((length (unique eqb l) <? length l)%nat && negb (length l =? 2)%nat);
    [left | right]; reflexivity.
Qed.

Lemma drop_duplicates_length (l : list A) :
  (length (drop_duplicates eqb l) <= length l)%nat.
Proof.
  destruct (drop_duplicates_cases l) as [-> | ->]; [apply unique_length | lia].
Qed.

Lemma drop_duplicates_sorted (R : A -> A -> Prop) (l : list A) :
  StronglySorted R l -> StronglySorted R (drop_duplicates eqb l).
Proof.
  intro H. destruct (drop_duplicates_cases l) as [-> | ->];
    [apply unique_sorted, H | exact H].
Qed.

Lemma drop_duplicates_head (a : A) (l : list A) :
  exists t, drop_duplicates eqb (a :: l) = a :: t.
Proof.
  destruct (drop_duplicates_cases (a :: l)) as [-> | ->]; simpl; eexists; reflexivity.
Qed.

Lemma drop_duplicates_covers (l : list A) (x : A) :
  (forall a, eqb a a = true) ->
  (forall a b c, eqb a b = true -> eqb b c = true -> eqb a c = true) ->
  In x l -> exists y, In y (drop_duplicates eqb l) /\ eqb y x = true.
Proof.
  intros Hrefl Htrans Hx.
  destruct (drop_duplicates_cases l) as [-> | ->].
  - apply unique_covers; assumption.
  - exists x. split; [exact Hx | apply Hrefl].
Qed.
End Unique.

Lemma unique_map_Some (l : list Q) :
  unique edge_eqb (map Some l) = map Some (unique Qeq_bool l).
Proof.
  induction l as [|a l IH]; simpl; [reflexivity|].
  rewrite IH, filter_map_comm. reflexivity.
Qed.

Lemma drop_duplicates_map_Some (l : list Q) :
  drop_duplicates edge_eqb (map Some l) = map Some (drop_duplicates Qeq_bool l).
Proof.
  unfold drop_duplicates. rewrite unique_map_Some, !length_map.
  destruct ((length (unique Qeq_bool l) <? length l)%nat && negb (length l =? 2)%nat);
    reflexivity.
Qed.

Lemma present_map_Some {A : Type} (l : list A) : present (map Some l) = l.
Proof.
  unfold present. induction l as [|a l IH]; simpl; [reflexivity|].
  rewrite IH. reflexivity.
Qed.

Lemma Qdiv_by_zero (a : Q) : a / inject_Z 0 == 0.
Proof. unfold Qdiv. change (/ inject_Z 0) with 0. ring. Qed.

Lemma linspace_point_range (q j : nat) :
  (j <= q)%nat -> 0 <= inject_Z (Z.of_nat j) / inject_Z (Z.of_nat q) <= 1.
Proof.
  intro H. destruct q as [|q].
  - change (Z.of_nat 0) with 0%Z. rewrite Qdiv_by_zero. lra.
  - assert (Hd : 0 < inject_Z (Z.of_nat (S q))).
    { change 0 with (inject_Z 0). rewrite <- Zlt_Qlt. lia. }
    split.
    + assert (Z0 : 0 / inject_Z (Z.of_nat (S q)) == 0) by (unfold Qdiv; ring).
      rewrite <- Z0. apply ratio_monotone; [exact Hd|].
      change 0 with (inject_Z 0). rewrite <- Zle_Qle. lia.
    + assert (Z1 : inject_Z (Z.of_nat (S q)) / inject_Z (Z.of_nat (S q)) == 1)
        by (field; lra).
      rewrite <- Z1. apply ratio_monotone; [exact Hd|].
      rewrite <- Zle_Qle. lia.
Qed.

Lemma linspace_point_monotone (q i j : nat) :
  (i <= j)%nat ->
  inject_Z (Z.of_nat i) / inject_Z (Z.of_nat q)
  <= inject_Z (Z.of_nat j) / inject_Z (Z.of_nat q).
Proof.
  intro H. destruct q as [|q].
  - change (Z.of_nat 0) with 0%Z. rewrite !Qdiv_by_zero. lra.
  - apply ratio_monotone.
    + change 0 with (inject_Z 0). rewrite <- Zlt_Qlt. lia.
    + rewrite <- Zle_Qle. lia.
Qed.

Lemma linspace_point_first (q : nat) :
  inject_Z (Z.of_nat 0) / inject_Z (Z.of_nat q) == 0.
Proof. unfold Qdiv. change (inject_Z (Z.of_nat 0)) with 0. ring. Qed.

Lemma linspace_point_last (q : nat) :
  (1 <= q)%nat -> inject_Z (Z.of_nat q) / inject_Z (Z.of_nat q) == 1.
Proof.
  intro H. field. change 0 with (inject_Z 0). rewrite inject_Z_injective. lia.
Qed.

Lemma quantile_Some (xs : list Z) (q : nat) :
  xs <> [] ->
  map (quantile xs) (linspace01 q) = map Some (quantile_edges xs q).
Proof.
  intro H. unfold quantile_edges. rewrite map_map. apply map_ext.
  intro p. destruct xs; [congruence | reflexivity].
Qed.

Lemma quantile_None (q : nat) :
  map (quantile []) (linspace01 q) = repeat None (S q).
Proof.
  unfold linspace01. rewrite map_map. generalize 0%nat.
  induction (S q) as [|n IH]; intro a; simpl; [reflexivity|].
  rewrite IH. reflexivity.
Qed.

Lemma quantile_edges_length (xs : list Z) (q : nat) :
  length (quantile_edges xs q) = S q.
Proof.
  unfold quantile_edges, linspace01. rewrite !length_map, length_seq. reflexivity.
Qed.

Section Edges.
Variable xs : list Z.
Hypothesis xs_nonempty : xs <> [].
Variable q : nat.

Let s : list Z := sort_by Z.leb xs.
Let L : Q := inject_Z (Z.of_nat (length s) - 1).

Lemma sorted_sample_nonempty : s <> [].
Proof. unfold s. rewrite sort_by_nil_iff. exact xs_nonempty. Qed.

Lemma L_nonneg : 0 <= L.
Proof.
  unfold L. change 0 with (inject_Z 0). rewrite <- Zle_Qle.
  exact (last_nonneg s sorted_sample_nonempty).
Qed.

Lemma quantile_edges_sorted : StronglySorted Qle (quantile_edges xs q).
Proof.
  unfold quantile_edges, linspace01. rewrite map_map. fold s. fold L.
  apply StronglySorted_map_seq. intros i j Hij Hj.
  pose proof (linspace_point_range q i ltac:(lia)) as Ri.
  pose proof (linspace_point_range q j ltac:(lia)) as Rj.
  pose proof (linspace_point_monotone q i j ltac:(lia)) as M.
  pose proof L_nonneg as HL.
  apply interpolate_monotone.
  - apply Zsort_sorted.
  - apply Qmult_le_0_compat; [apply Ri | exact HL].
  - apply Qmult_le_compat_r; assumption.
  - fold L. revert Rj. generalize (inject_Z (Z.of_nat j) / inject_Z (Z.of_nat q)).
    intros p Rj. nra.
Qed.

Lemma quantile_edges_head :
  exists e rest, quantile_edges xs q = e :: rest
                 /\ e == inject_Z (nth 0 s 0%Z).
Proof.
  unfold quantile_edges, linspace01. simpl map. fold s. fold L.
  do 2 eexists. split; [reflexivity|].
  apply interpolate_first. rewrite linspace_point_first. ring.
Qed.

Lemma quantile_edges_top :
  (1 <= q)%nat ->
  exists e, In e (quantile_edges xs q)
            /\ e == inject_Z (nth (Z.to_nat (Z.of_nat (length s) - 1)) s 0%Z).
Proof.
  intro Hq. unfold quantile_edges. fold s. fold L.
  eexists. split.
  - apply in_map. unfold linspace01.
    apply (in_map (fun j => inject_Z (Z.of_nat j) / inject_Z (Z.of_nat q))
                  (seq 0 (S q)) q).
    apply in_seq. lia.
  - apply interpolate_last. simpl. rewrite (linspace_point_last q Hq).
    unfold L. ring.
Qed.

Lemma sample_within_edges (x : Z) :
  In x xs ->
  inject_Z (nth 0 s 0%Z) <= inject_Z x
  /\ inject_Z x <= inject_Z (nth (Z.to_nat (Z.of_nat (length s) - 1)) s 0%Z).
Proof.
  intro Hx. apply sample_between.
  - apply Zsort_sorted.
  - apply sorted_sample_nonempty.
  - apply sort_by_In. exact Hx.
Qed.

Lemma qcut_bins_kept : qcut_bins xs q = map Some (kept_edges xs q).
Proof.
  unfold qcut_bins, kept_edges.
  rewrite (quantile_Some xs q xs_nonempty). apply drop_duplicates_map_Some.
Qed.

Lemma kept_edges_sorted : StronglySorted Qle (kept_edges xs q).
Proof. apply drop_duplicates_sorted, quantile_edges_sorted. Qed.

Lemma kept_edges_length : (length (kept_edges xs q) <= S q)%nat.
Proof.
  unfold kept_edges. rewrite <- (quantile_edges_length xs q).
  apply drop_duplicates_length.
Qed.

Lemma kept_edges_head :
  exists e rest, kept_edges xs q = e :: rest /\ e == inject_Z (nth 0 s 0%Z).
Proof.
  destruct quantile_edges_head as (e & rest & E & He).
  unfold kept_edges. rewrite E.
  destruct (drop_duplicates_head Qeq_bool e rest) as (t & ->).
  exists e, t. split; [reflexivity | exact He].
Qed.

Lemma kept_edges_top :
  (1 <= q)%nat ->
  exists e, In e (kept_edges xs q)
            /\ e == inject_Z (nth (Z.to_nat (Z.of_nat (length s) - 1)) s 0%Z).
Proof.
  intro Hq. destruct (quantile_edges_top Hq) as (e & He & Ee).
  destruct (drop_duplicates_covers Qeq_bool (quantile_edges xs q) e
              Qeq_bool_refl Qeq_bool_trans He) as (y & Hy & Eq).
  exists y. split; [exact Hy|].
  apply Qeq_bool_eq in Eq. rewrite Eq. exact Ee.
Qed.
End Edges.

(** ** Category codes *)

Lemma Qsorted_nth (l : list Q) (i j : nat) :
  StronglySorted Qle l -> (i <= j < length l)%nat -> nth i l 0 <= nth j l 0.
Proof.
  intro Hs. revert i j. induction Hs as [|h t Hs IH Hall]; intros i j Hij; simpl in *.
  - lia.
  - destruct i as [|i], j as [|j]; try lia.
    + apply Qle_refl.
    + rewrite Forall_forall in Hall. apply Hall, nth_In. lia.
    + apply IH. lia.
Qed.

Lemma searchsorted_left_spec (bins : list Q) (x : Q) :
  (searchsorted_left bins x <= length bins)%nat
  /\ (forall j, (j < searchsorted_left bins x)%nat -> nth j bins 0 < x)
  /\ ((searchsorted_left bins x < length bins)%nat ->
      x <= nth (searchsorted_left bins x) bins 0).
Proof.
  induction bins as [|b t IH]; simpl.
  - repeat split; intros; lia.
  - destruct (Qltb b x) eqn:E.
    + apply Qltb_lt in E. destruct IH as (H1 & H2 & H3).
      repeat split; [lia | | intro; apply H3; lia].
      intros [|j] Hj; [exact E | apply H2; lia].
    + apply Qltb_ge in E. repeat split; [lia | intros; lia | intros _; exact E].
Qed.

Lemma searchsorted_left_stops (bins : list Q) (x y : Q) :
  In y bins -> x <= y -> (searchsorted_left bins x < length bins)%nat.
Proof.
  induction bins as [|b t IH]; simpl; intros Hy Hxy; [contradiction|].
  destruct (Qltb b x) eqn:E; [|lia].
  apply Qltb_lt in E. destruct Hy as [->|Hy]; [lra|].
  pose proof (IH Hy Hxy). lia.
Qed.

Lemma searchsorted_left_interval (bins : list Q) (x : Q) (i : nat) :
  StronglySorted Qle bins -> (S i < length bins)%nat ->
  nth i bins 0 < x -> x <= nth (S i) bins 0 ->
  searchsorted_left bins x = S i.
Proof.
  intros Hs Hi Hlo Hhi.
  destruct (searchsorted_left_spec bins x) as (H1 & H2 & H3).
  destruct (Nat.lt_trichotomy (searchsorted_left bins x) (S i)) as [Lt|[Eq|Gt]].
  - exfalso. specialize (H3 ltac:(lia)).
    pose proof (Qsorted_nth bins (searchsorted_left bins x) i Hs ltac:(lia)). lra.
  - exact Eq.
  - exfalso. specialize (H2 (S i) Gt). lra.
Qed.

Lemma bin_code_unfold (bins : list Q) (b0 : Q) (t : list Q) (x : Q) :
  bins = b0 :: t ->
  bin_code bins x
  = if Qeq_bool x b0
    then (if (1 =? length bins)%nat then None else Some 0%nat)
    else (if (searchsorted_left bins x =? 0)%nat
             || (searchsorted_left bins x =? length bins)%nat
          then None
          else Some (searchsorted_left bins x - 1)%nat).
Proof.
  intros ->. unfold bin_code. destruct (Qeq_bool x b0); reflexivity.
Qed.

Lemma nonempty_cons {A : Type} (l : list A) :
  (1 <= length l)%nat -> exists a t, l = a :: t.
Proof. destruct l as [|a t]; simpl; [lia | intros _; eauto]. Qed.

Ltac nat_eqb_false :=
  symmetry; repeat (apply orb_false_iff; split); apply Nat.eqb_neq; lia.

(** The code agrees with the interval reading of the bins. *)
Lemma bin_code_interval (bins : list Q) (x : Q) (i : nat) :
  StronglySorted Qle bins -> (S i < length bins)%nat ->
  code_is i (bin_code bins x)
  = in_interval (nth i bins 0, nth (S i) bins 0) (i =? 0)%nat x.
Proof.
  intros Hs Hi.
  destruct (nonempty_cons bins ltac:(lia)) as (b0 & t & Eb).
  assert (Hb0 : nth 0 bins 0 = b0) by (rewrite Eb; reflexivity).
  destruct (searchsorted_left_spec bins x) as (K1 & K2 & K3).
  rewrite (bin_code_unfold bins b0 t x Eb).
  unfold in_interval. simpl fst. simpl snd.
  apply eq_true_iff_eq. split.
  - destruct (Qeq_bool x b0) eqn:E0.
    + replace (1 =? length bins)%nat with false by nat_eqb_false.
      unfold code_is. intro C. apply Nat.eqb_eq in C. subst i.
      apply orb_true_iff. right. rewrite Hb0. simpl. exact E0.
    + destruct ((searchsorted_left bins x =? 0)%nat
                || (searchsorted_left bins x =? length bins)%nat) eqn:E1;
        [simpl; discriminate|].
      apply orb_false_iff in E1. destruct E1 as [N0 NL].
      apply Nat.eqb_neq in N0, NL.
      unfold code_is. intro C. apply Nat.eqb_eq in C.
      assert (Hk : searchsorted_left bins x = S i) by lia.
      apply orb_true_iff. left. apply andb_true_iff. split.
      * apply Qltb_lt. apply K2. lia.
      * apply Qle_bool_iff. rewrite <- Hk. apply K3. lia.
  - intro H. apply orb_true_iff in H. destruct H as [H|H].
    + apply andb_true_iff in H. destruct H as [Hlo Hhi].
      apply Qltb_lt in Hlo. apply Qle_bool_iff in Hhi.
      pose proof (searchsorted_left_interval bins x i Hs Hi Hlo Hhi) as Hk.
      assert (E0 : Qeq_bool x b0 = false).
      { destruct (Qeq_bool x b0) eqn:E0; [|reflexivity].
        apply Qeq_bool_eq in E0.
        pose proof (Qsorted_nth bins 0 i Hs ltac:(lia)) as S0.
        rewrite Hb0 in S0. lra. }
      rewrite E0, Hk.
      replace ((S i =? 0)%nat || (S i =? length bins)%nat) with false
        by nat_eqb_false.
      simpl. rewrite Nat.sub_0_r. apply Nat.eqb_refl.
    + apply andb_true_iff in H. destruct H as [Hi0 Hx].
      apply Nat.eqb_eq in Hi0. subst i. rewrite Hb0 in Hx. rewrite Hx.
      replace (1 =? length bins)%nat with false by nat_eqb_false.
      reflexivity.
Qed.

(** Every value between the lowest and the highest edge gets a code. *)
Lemma bin_code_defined (bins : list Q) (x y : Q) :
  (2 <= length bins)%nat -> nth 0 bins 0 <= x -> In y bins -> x <= y ->
  exists i, bin_code bins x = Some i /\ (S i < length bins)%nat.
Proof.
  intros Hlen Hlo Hy Hxy.
  destruct (nonempty_cons bins ltac:(lia)) as (b0 & t & Eb).
  assert (Hb0 : nth 0 bins 0 = b0) by (rewrite Eb; reflexivity).
  rewrite (bin_code_unfold bins b0 t x Eb).
  destruct (Qeq_bool x b0) eqn:E0.
  - replace (1 =? length bins)%nat with false by nat_eqb_false.
    exists 0%nat. split; [reflexivity | lia].
  - pose proof (searchsorted_left_stops bins x y Hy Hxy) as Hk.
    assert (H1 : (1 <= searchsorted_left bins x)%nat).
    { rewrite Eb. simpl. destruct (Qltb b0 x) eqn:E; [lia|].
      apply Qltb_ge in E. rewrite Hb0 in Hlo.
      apply Qeq_bool_neq in E0. exfalso. apply E0. lra. }
    replace ((searchsorted_left bins x =? 0)%nat
             || (searchsorted_left bins x =? length bins)%nat) with false
      by nat_eqb_false.
    eexists. split; [reflexivity | lia].
Qed.

(** ** Categories *)

Lemma from_breaks_Some (edges : list Q) :
  from_breaks (map Some edges) = Ok (consecutive edges).
Proof.
  unfold consecutive.
  induction edges as [|a [|b t] IH]; [reflexivity | reflexivity |].
  change (from_breaks (map Some (a :: b :: t)))
    with (ivs <- from_breaks (map Some (b :: t)) ;; Ok ((a, b) :: ivs)).
  rewrite IH. reflexivity.
Qed.

Lemma consecutive_length (edges : list Q) :
  length (consecutive edges) = pred (length edges).
Proof.
  unfold consecutive. rewrite length_combine.
  destruct edges as [|a t]; simpl length; simpl tl; lia.
Qed.

Lemma consecutive_nth (edges : list Q) (i : nat) :
  (S i < length edges)%nat ->
  nth_error (consecutive edges) i = Some (nth i edges 0, nth (S i) edges 0).
Proof.
  unfold consecutive. revert i.
  induction edges as [|a [|b t] IH]; intros i Hi; simpl in Hi; try lia.
  destruct i as [|i]; [reflexivity|].
  simpl nth_error. simpl tl in IH. rewrite IH by (simpl; lia). reflexivity.
Qed.

(** ** Aggregations *)

Lemma Qsum_bounds (l : list Q) (lo hi : Q) :
  Forall (within lo hi) l ->
  inject_Z (Z.of_nat (length l)) * lo <= Qsum l
  /\ Qsum l <= inject_Z (Z.of_nat (length l)) * hi.
Proof.
  induction 1 as [|v l [Hlo Hhi] _ [IHlo IHhi]].
  - change (Qsum []) with 0. change (inject_Z (Z.of_nat (length (@nil Q)))) with 0.
    split; lra.
  - change (Qsum (v :: l)) with (v + Qsum l).
    replace (Z.of_nat (length (v :: l))) with (1 + Z.of_nat (length l))%Z
      by (simpl length; lia).
    rewrite inject_Z_plus. change (inject_Z 1) with 1.
    revert IHlo IHhi. generalize (inject_Z (Z.of_nat (length l))), (Qsum l).
    intros n t IHlo IHhi. split; lra.
Qed.

Lemma mean_nonempty (l : list Q) :
  l <> [] -> mean l = Some (Qsum l / inject_Z (Z.of_nat (length l))).
Proof. destruct l; [congruence | reflexivity]. Qed.

Lemma mean_bounds (l : list Q) (lo hi m : Q) :
  Forall (within lo hi) l -> mean l = Some m -> within lo hi m.
Proof.
  intros Hall Hm. destruct (Qsum_bounds l lo hi Hall) as [Hlo Hhi].
  assert (Hne : l <> []) by (intro E; subst; discriminate).
  rewrite (mean_nonempty l Hne) in Hm. injection Hm as <-.
  assert (Hn : 0 < inject_Z (Z.of_nat (length l))).
  { change 0 with (inject_Z 0). rewrite <- Zlt_Qlt.
    destruct l; [congruence | simpl length; lia]. }
  revert Hn Hlo Hhi.
  generalize (inject_Z (Z.of_nat (length l))), (Qsum l).
  intros n t Hn Hlo Hhi. split.
  - apply Qle_shift_div_l; [exact Hn | lra].
  - apply Qle_shift_div_r; [exact Hn | lra].
Qed.

Lemma mean_Some (l : list Q) : l <> [] -> exists m, mean l = Some m.
Proof. destruct l; [congruence | intros _; eexists; reflexivity]. Qed.

Lemma median_nonempty (l : list Q) :
  l <> [] ->
  median l
  = if Nat.even (length (sort_by Qle_bool l))
    then Some ((nth (length (sort_by Qle_bool l) / 2 - 1) (sort_by Qle_bool l) 0
                + nth (length (sort_by Qle_bool l) / 2) (sort_by Qle_bool l) 0) / 2)
    else Some (nth (length (sort_by Qle_bool l) / 2) (sort_by Qle_bool l) 0).
Proof. destruct l; [congruence | reflexivity]. Qed.

Lemma median_bounds (l : list Q) (lo hi m : Q) :
  Forall (within lo hi) l -> median l = Some m -> within lo hi m.
Proof.
  intros Hall Hm.
  assert (Hne : l <> []) by (intro E; subst; discriminate).
  rewrite (median_nonempty l Hne) in Hm.
  set (s := sort_by Qle_bool l) in *.
  assert (Hlen : length s <> 0%nat).
  { unfold s. rewrite sort_by_length. rewrite length_zero_iff_nil. exact Hne. }
  assert (Hnth : forall k, (k < length s)%nat -> within lo hi (nth k s 0)).
  { intros k Hk. rewrite Forall_forall in Hall. apply Hall.
    apply (sort_by_In Qle_bool). apply nth_In. exact Hk. }
  assert (Hhalf : (length s / 2 < length s)%nat)
    by (apply Nat.div_lt; lia).
  pose proof (Hnth (length s / 2)%nat Hhalf) as [A1 A2].
  pose proof (Hnth (length s / 2 - 1)%nat ltac:(lia)) as [B1 B2].
  revert Hm A1 A2 B1 B2.
  generalize (nth (length s / 2) s 0), (nth (length s / 2 - 1) s 0).
  intros a b Hm A1 A2 B1 B2.
  destruct (Nat.even (length s)).
  - replace m with ((b + a) / 2) by congruence. split.
    + apply Qle_shift_div_l; lra.
    + apply Qle_shift_div_r; lra.
  - replace m with a by congruence. split; assumption.
Qed.

(** ** The rows of [smooth_data] *)

Lemma nth_error_enumerate {A : Type} (l : list A) (a i : nat) :
  nth_error (combine (seq a (length l)) l) i
  = option_map (fun v => ((a + i)%nat, v)) (nth_error l i).
Proof.
  revert a i. induction l as [|v l IH]; intros a i; simpl.
  - destruct i; reflexivity.
  - destruct i as [|i]; simpl.
    + rewrite Nat.add_0_r. reflexivity.
    + rewrite IH. replace (S a + i)%nat with (a + S i)%nat by lia. reflexivity.
Qed.




Section Smoothing.
Context {row : Type} (x_col : row -> Z) (y_col : row -> Q).
Variable df : list row.
Hypothesis df_nonempty : df <> [].
Variable num_bins : nat.

Let sorted : list row := sort_values x_col df.
Let xs : list Z := map x_col sorted.
Let bins : list Q := kept_edges xs num_bins.

Lemma xs_nonempty : xs <> [].
Proof.
  unfold xs, sorted, sort_values. intro E.
  apply map_eq_nil in E. apply sort_by_nil_iff in E. contradiction.
Qed.

Lemma bins_sorted : StronglySorted Qle bins.
Proof. apply kept_edges_sorted, xs_nonempty. Qed.

Lemma smooth_data_rows :
  smooth_data df x_col y_col num_bins
  = Ok (map (bin_row x_col y_col bins sorted)
            (combine (seq 0 (length (consecutive bins))) (consecutive bins))).
Proof.
  unfold smooth_data. cbv zeta. fold sorted. fold xs.
  rewrite (qcut_bins_kept xs xs_nonempty num_bins). fold bins.
  rewrite from_breaks_Some, present_map_Some. reflexivity.
Qed.

Lemma smooth_data_length (out : list smoothed_row) :
  smooth_data df x_col y_col num_bins = Ok out ->
  length out = pred (length bins) /\ (length out <= num_bins)%nat.
Proof.
  rewrite smooth_data_rows. intro H. injection H as <-.
  rewrite length_map, length_combine, length_seq, Nat.min_id, consecutive_length.
  split; [reflexivity|].
  pose proof (kept_edges_length xs num_bins) as Hk. fold bins in Hk. lia.
Qed.

Lemma smooth_data_nth (out : list smoothed_row) (i : nat) :
  smooth_data df x_col y_col num_bins = Ok out ->
  nth_error out i
  = if (S i <? length bins)%nat
    then Some (bin_row x_col y_col bins sorted (i, (nth i bins 0, nth (S i) bins 0)))
    else None.
Proof.
  rewrite smooth_data_rows. intro H. injection H as <-.
  rewrite nth_error_map, nth_error_enumerate. simpl Nat.add.
  destruct (S i <? length bins)%nat eqn:E.
  - apply Nat.ltb_lt in E. rewrite (consecutive_nth bins i E). reflexivity.
  - apply Nat.ltb_ge in E.
    replace (nth_error (consecutive bins) i) with (@None (Q * Q)); [reflexivity|].
    symmetry. apply nth_error_None. rewrite consecutive_length. lia.
Qed.

Lemma group_interval (i : nat) :
  (S i < length bins)%nat ->
  group x_col bins sorted i
  = filter (fun d => in_interval (nth i bins 0, nth (S i) bins 0) (i =? 0)%nat
                                 (inject_Z (x_col d))) sorted.
Proof.
  intro Hi. unfold group. apply filter_ext. intro d.
  apply bin_code_interval; [apply bins_sorted | exact Hi].
Qed.

Lemma group_within (i : nat) :
  (S i < length bins)%nat ->
  Forall (within (nth i bins 0) (nth (S i) bins 0))
         (map (fun d => inject_Z (x_col d)) (group x_col bins sorted i)).
Proof.
  intro Hi. rewrite (group_interval i Hi). rewrite Forall_forall.
  intros v Hv. apply in_map_iff in Hv. destruct Hv as (d & <- & Hd).
  apply filter_In in Hd. destruct Hd as [_ Hd].
  unfold in_interval in Hd. simpl fst in Hd. simpl snd in Hd.
  pose proof (Qsorted_nth bins i (S i) bins_sorted ltac:(lia)) as Hord.
  apply orb_true_iff in Hd. destruct Hd as [Hd|Hd];
    apply andb_true_iff in Hd; destruct Hd as [H1 H2].
  - apply Qltb_lt in H1. apply Qle_bool_iff in H2. split; lra.
  - apply Qeq_bool_eq in H2. split; lra.
Qed.


Lemma row_assigned (d : row) :
  (2 <= length bins)%nat -> In d df ->
  exists i, (S i < length bins)%nat
            /\ bin_code bins (inject_Z (x_col d)) = Some i.
Proof.
  intros Hlen Hd.
  assert (Hq : (1 <= num_bins)%nat).
  { pose proof (kept_edges_length xs num_bins) as Hk. fold bins in Hk. lia. }
  assert (Hx : In (x_col d) xs).
  { unfold xs. apply in_map. unfold sorted, sort_values.
    apply sort_by_In. exact Hd. }
  destruct (sample_within_edges xs xs_nonempty (x_col d) Hx) as [Hlo Hhi].
  destruct (kept_edges_head xs num_bins) as (e & rest & Eb & He).
  destruct (kept_edges_top xs num_bins Hq) as (y & Hy & Ey).
  fold bins in Eb, Hy.
  destruct (bin_code_defined bins (inject_Z (x_col d)) y Hlen) as (i & Hi & Hlt).
  - rewrite Eb. simpl nth. lra.
  - exact Hy.
  - lra.
  - exists i. split; assumption.
Qed.
End Smoothing.

(** ** [smooth_data]: the bins *)

(** Ten readings at times 0 to 9 cut into four bins: the edges are 0, 2.25,
    4.5, 6.75 and 9, and the bins hold 3, 2, 2 and 3 readings. *)
Example four_bins_of_ten :
  let df := map (fun t => sample_reading t (inject_Z t)) [3; 1; 2; 0; 9; 8; 7; 6; 5; 4]%Z in
  exists out,
    smooth_data df Timestamp Temperature_C 4 = Ok out
    /\ map (fun r => (Qred (fst (Bin r)), Qred (snd (Bin r)))) out
       = [(0, 9 # 4); (9 # 4, 9 # 2); (9 # 2, 27 # 4); (27 # 4, 9)]
    /\ map (fun r => option_map Qred (value r)) out
       = [Some 1; Some (7 # 2); Some (11 # 2); Some 8]
    /\ map (fun r => option_map Qred (bin_Timestamp r)) out
       = [Some 1; Some (7 # 2); Some (11 # 2); Some 8].
Proof. eexists. split; [reflexivity|]. repeat split. Qed.

(** Repeated timestamps: the edges 1, 1, 1.4, 2, 2.8, 10 lose one duplicate,
    and the bin from 2 to 2.8 holds no reading. *)
Example repeated_timestamps :
  let df := map (fun t => sample_reading t (inject_Z t)) [1; 1; 1; 2; 2; 3; 10]%Z in
  exists out,
    smooth_data df Timestamp Temperature_C 5 = Ok out
    /\ map (fun r => (Qred (fst (Bin r)), Qred (snd (Bin r)))) out
       = [(1, 7 # 5); (7 # 5, 2); (2, 14 # 5); (14 # 5, 10)]
    /\ map (fun r => option_map Qred (value r)) out
       = [Some 1; Some 2; None; Some (13 # 2)].
Proof. eexists. split; [reflexivity|]. repeat split. Qed.




(** ** Degenerate frames *)

Lemma drop_duplicates_all_equal {A : Type} (eqb : A -> A -> bool) (x : A) (t : list A) :
  (forall y, In y t -> eqb x y = true) ->
  length t <> 1%nat ->
  drop_duplicates eqb (x :: t) = [x].
Proof.
  intros Hall Hlen. unfold drop_duplicates.
  rewrite (unique_all_equal eqb x t Hall).
  destruct t as [|a [|b t]]; [reflexivity | simpl in Hlen; congruence | reflexivity].
Qed.


Lemma qcut_bins_empty (q : nat) :
  q <> 1%nat -> qcut_bins [] q = [None].
Proof.
  intro Hq. unfold qcut_bins. rewrite quantile_None. simpl repeat.
  apply drop_duplicates_all_equal.
  - intros y Hy. apply repeat_spec in Hy. subst. reflexivity.
  - rewrite repeat_length. exact Hq.
Qed.

(** C6, as the code has it: on an empty frame [smooth_data] returns an
    empty frame for every bin count other than 1. *)
Theorem smooth_data_empty {row : Type} (x_col : row -> Z) (y_col : row -> Q)
    (num_bins : nat) :
  num_bins <> 1%nat ->
  smooth_data (@nil row) x_col y_col num_bins = Ok [].
Proof.
  intro Hq. unfold smooth_data.
  change (map x_col (sort_values x_col [])) with (@nil Z).
  rewrite (qcut_bins_empty num_bins Hq). reflexivity.
Qed.

Lemma smooth_data_empty_witness :
  default_num_bins <> 1%nat
  /\ smooth_data (@nil reading) Timestamp Soil_Moisture_1 default_num_bins = Ok [].
Proof.
  assert (H : default_num_bins <> 1%nat) by discriminate.
  split; [exact H | exact (smooth_data_empty Timestamp Soil_Moisture_1 default_num_bins H)].
Defined.

(** With one bin asked for, the two NaN edges of an empty frame are kept and
    the categories cannot be built. *)
Lemma smooth_data_empty_one_bin :
  ~ smooth_data (@nil reading) Timestamp Soil_Moisture_1 1 = Ok [].
Proof. vm_compute. discriminate. Qed.







(** ** The smoothed frames of one window *)

Lemma smooth_data_frame {row : Type} (df : list row) (x_col : row -> Z)
    (y_col : row -> Q) (num_bins : nat) :
  df <> [] ->
  smooth_data df x_col y_col num_bins = Ok (smoothed_frame df x_col y_col num_bins).
Proof. intro H. apply smooth_data_rows, H. Qed.



Lemma smoothed_frame_length {row : Type} (df : list row) (x_col : row -> Z)
    (y1 y2 : row -> Q) (num_bins : nat) :
  length (smoothed_frame df x_col y1 num_bins)
  = length (smoothed_frame df x_col y2 num_bins).
Proof. unfold smoothed_frame. rewrite !length_map. reflexivity. Qed.

Lemma smoothed_frame_values {row : Type} (df : list row) (x_col : row -> Z)
    (y_col : row -> Q) (num_bins : nat) (lo hi : Q) :
  (forall d, In d df -> within lo hi (y_col d)) ->
  forall r v, In r (smoothed_frame df x_col y_col num_bins) ->
              value r = Some v -> within lo hi v.
Proof.
  intros Hcol r v Hr Hv. unfold smoothed_frame in Hr.
  apply in_map_iff in Hr. destruct Hr as (ci & <- & _).
  unfold bin_row in Hv. cbn [value] in Hv.
  apply (mean_bounds _ lo hi v) in Hv; [exact Hv|].
  rewrite Forall_forall. intros y Hy.
  apply in_map_iff in Hy. destruct Hy as (d & <- & Hd).
  apply Hcol. unfold group in Hd. apply filter_In in Hd. destruct Hd as [Hd _].
  unfold sort_values in Hd. apply sort_by_In in Hd. exact Hd.
Qed.

(** ** Calibration of a frame *)

Lemma map_res_Ok {A B : Type} (f : A -> res B) (g : A -> B) (l : list A) :
  (forall a, In a l -> f a = Ok (g a)) -> map_res f l = Ok (map g l).
Proof.
  induction l as [|a l IH]; intro H; simpl; [reflexivity|].
  rewrite (H a (or_introl eq_refl)). simpl.
  rewrite IH; [reflexivity|]. intros b Hb. apply H. right. exact Hb.
Qed.

Lemma calibration_points_distinct (i : nat) :
  (i < 4)%nat -> ~ nth i dry_values 0 == nth i wet_values 0.
Proof.
  intros Hi E.
  destruct i as [|[|[|[|i]]]]; try lia; discriminate E.
Qed.

Lemma apply_scale_Ok (i : nat) (df : list reading) :
  (i < 4)%nat -> apply_scale i df = Ok (map (scaled_row i) df).
Proof.
  intro Hi. unfold apply_scale. apply map_res_Ok. intros r _.
  rewrite (scale_moisture_Ok _ _ _ (calibration_points_distinct i Hi)).
  reflexivity.
Qed.

Lemma calibrate_Ok (df : list reading) : calibrate df = Ok (calibrated df).
Proof.
  unfold calibrate, calibrated.
  rewrite apply_scale_Ok by lia. simpl bind.
  rewrite apply_scale_Ok by lia. simpl bind.
  rewrite apply_scale_Ok by lia. simpl bind.
  apply apply_scale_Ok. lia.
Qed.

Lemma calibrated_nonempty (df : list reading) : df <> [] -> calibrated df <> [].
Proof.
  intros H E. apply H. unfold calibrated in E.
  repeat apply map_eq_nil in E. exact E.
Qed.

Lemma scaled_value_range (i : nat) (r : reading) : within 0 1 (scaled_value i r).
Proof.
  unfold scaled_value, within, py_max, py_min.
  generalize ((get_moisture i r - nth i wet_values 0)
              / (nth i dry_values 0 - nth i wet_values 0)).
  intro q. case_Qltb; lra.
Qed.

Lemma calibrated_moisture (df : list reading) (k : nat) (col : reading -> Q) :
  (k < 4)%nat -> nth_error columns_to_smooth k = Some col ->
  forall d, In d (calibrated df) -> within 0 1 (col d).
Proof.
  intros Hk Hcol d Hd. unfold calibrated in Hd.
  repeat (apply in_map_iff in Hd; destruct Hd as (? & <- & Hd)).
  destruct k as [|[|[|[|k]]]]; try lia;
    simpl in Hcol; injection Hcol as <-; cbn [scaled_row set_moisture
      Soil_Moisture_1 Soil_Moisture_2 Soil_Moisture_3 Soil_Moisture_4];
    apply scaled_value_range.
Qed.

(** ** The figure *)

Lemma plot_Ok (x y : list (option Q)) :
  length x = length y -> plot x y = Ok (mkLine x y).
Proof. intro H. unfold plot. rewrite H, Nat.eqb_refl. reflexivity. Qed.

Lemma smoothed_lengths (w : list reading) (c1 c2 : reading -> Q) :
  length (map bin_Timestamp (smoothed_frame w Timestamp c1 default_num_bins))
  = length (map value (smoothed_frame w Timestamp c2 default_num_bins)).
Proof. rewrite !length_map. apply smoothed_frame_length. Qed.

Lemma render_Ok (window : list reading) (latest_time : Z) :
  window <> [] -> render window latest_time = Ok (figure_of window latest_time).
Proof.
  intro Hne. unfold render. rewrite calibrate_Ok. cbn [bind].
  pose proof (calibrated_nonempty window Hne) as Hw.
  rewrite (map_res_Ok _ (fun col => smoothed_frame (calibrated window) Timestamp col
                                                   default_num_bins))
    by (intros col _; apply smooth_data_frame, Hw).
  cbn [bind columns_to_smooth map nth seq map_res].
  repeat (rewrite plot_Ok
            by (try rewrite length_map with (f := fahrenheit); apply smoothed_lengths);
          cbn [bind]).
  reflexivity.
Qed.



(** C10, in exact arithmetic: every value present in the frame
    [smooth_data] returns lies between the minimum and the maximum of the
    value column over the input; after calibration every smoothed
    soil-moisture value present lies in [[0, 1]]. *)
Theorem smoothed_values_in_range :
  (forall (row : Type) (df : list row) (x_col : row -> Z) (y_col : row -> Q)
          (num_bins : nat) (lo hi : Q),
      df <> [] ->
      In lo (map y_col df) -> In hi (map y_col df) ->
      (forall d, In d df -> lo <= y_col d <= hi) ->
      exists out,
        smooth_data df x_col y_col num_bins = Ok out
        /\ forall r v, In r out -> value r = Some v -> lo <= v <= hi)
  /\ (forall (window : list reading) (num_bins k : nat) (col : reading -> Q),
      window <> [] ->
      (k < 4)%nat -> nth_error columns_to_smooth k = Some col ->
      exists w out,
        calibrate window = Ok w
        /\ smooth_data w Timestamp col num_bins = Ok out
        /\ forall r v, In r out -> value r = Some v -> 0 <= v <= 1).
Proof.
  split.
  - intros row df x_col y_col num_bins lo hi Hne _ _ Hcol.
    exists (smoothed_frame df x_col y_col num_bins).
    split; [apply smooth_data_frame, Hne|].
    apply (smoothed_frame_values df x_col y_col num_bins lo hi Hcol).
  - intros window num_bins k col Hne Hk Hcol.
    exists (calibrated window), (smoothed_frame (calibrated window) Timestamp col num_bins).
    split; [apply calibrate_Ok|].
    split; [apply smooth_data_frame, calibrated_nonempty, Hne|].
    apply (smoothed_frame_values (calibrated window) Timestamp col num_bins 0 1).
    apply (calibrated_moisture window k col Hk Hcol).
Qed.

Lemma smoothed_values_in_range_witness :
  let df := [sample_reading 0 7000; sample_reading 10 8000] in
  df <> []
  /\ (exists out,
        smooth_data df Timestamp Temperature_C 3 = Ok out
        /\ forall r v, In r out -> value r = Some v -> 7000 <= v <= 8000)
  /\ (exists w out,
        calibrate df = Ok w
        /\ smooth_data w Timestamp Soil_Moisture_1 default_num_bins = Ok out
        /\ forall r v, In r out -> value r = Some v -> 0 <= v <= 1).
Proof.
  intro df.
  assert (H : df <> []) by discriminate.
  destruct smoothed_values_in_range as [A B].
  split; [exact H|]. split.
  - apply (A reading df Timestamp Temperature_C 3%nat 7000 8000 H).
    + simpl. left. reflexivity.
    + simpl. right. left. reflexivity.
    + intros d [<-|[<-|[]]]; simpl; split; discriminate.
  - apply (B df default_num_bins 0%nat Soil_Moisture_1 H); [lia | reflexivity].
Defined.

(** ** [save_plot] *)

(** The outcome of a call, case by case: a missing CSV, an unparseable
    timestamp column and an empty window (a CSV without data rows among
    them) each print one diagnostic and leave the images as they were; a
    CSV without any content makes [read_csv] raise, and the exception
    leaves the call; every other call writes the image and prints the
    success message. *)
Lemma save_plot_outcome (hours : Q) (output_image : string) (w : world) :
  match csv w with
  | None =>
    save_plot hours output_image w = (Ok tt, print (CsvNotFound csv_file) w)
  | Some NoColumns =>
    save_plot hours output_image w = (Raise EmptyDataError, w)
  | Some UnparseableTimestamps =>
    save_plot hours output_image w
    = (Ok tt, print (ErrorParsingTimestamps ValueError) w)
  | Some (Table rows) =>
    match df_last_24h (sort_values Timestamp rows) hours with
    | [] =>
      save_plot hours output_image w = (Ok tt, print (NoDataAvailable hours) w)
    | _ :: _ =>
      exists fig,
        save_plot hours output_image w
        = (Ok tt, print (PlotSaved output_image) (savefig output_image fig w))
    end
  end.
Proof.
  unfold save_plot.
  destruct (csv w) as [[| |rows]|]; cbn [read_csv to_datetime];
    try reflexivity.
  destruct (df_last_24h (sort_values Timestamp rows) hours) as [|r window] eqn:E;
    cbn [is_empty]; [reflexivity|].
  eexists. rewrite render_Ok by discriminate. reflexivity.
Qed.

(** Apart from a CSV without content, a call does what the specification
    says: it skips on each of its conditions and plots otherwise. *)
Lemma save_plot_skips_or_plots (hours : Q) (output_image : string) (w : world) :
  csv w <> Some NoColumns -> skips_or_plots hours output_image w.
Proof.
  intro Hfile. pose proof (save_plot_outcome hours output_image w) as H.
  unfold skips_or_plots, skip_condition, skipped, plotted, csv_empty.
  destruct (csv w) as [[| |rows]|] eqn:Ecsv; [congruence| | |].
  - split; [|intro N; exfalso; apply N; auto].
    intros _. eexists. split; [exact H | discriminate].
  - destruct (df_last_24h (sort_values Timestamp rows) hours) as [|r window] eqn:E.
    + split; [|intro N; exfalso; apply N; do 3 right; exists rows; auto].
      intros _. eexists. split; [exact H | discriminate].
    + split; [|intros _; exact H].
      intros [C|[(c & Hc & [C|C])|[C|(rows' & Hr & C)]]]; try congruence.
      subst c. injection Hc as ->. discriminate E.
  - split; [|intro N; exfalso; apply N; auto].
    intros _. eexists. split; [exact H | discriminate].
Qed.

(** On a CSV file without content the script ends in its first call. *)
Lemma script_empty_file :
  script {| csv := Some NoColumns; stdout := []; images := [] |}
  = (Raise EmptyDataError, {| csv := Some NoColumns; stdout := []; images := [] |}).
Proof. reflexivity. Qed.

(** On a missing CSV file the script prints its diagnostic five times. *)
Lemma script_missing_file :
  script {| csv := None; stdout := []; images := [] |}
  = (Ok tt, {| csv := None;
               stdout := repeat (CsvNotFound csv_file) 5;
               images := [] |}).
Proof. reflexivity. Qed.

(** C4 at a CSV file without content: [read_csv] raises before the [try],
    the exception leaves [save_plot], nothing is printed and no image is
    written; the call neither skips nor plots as C4 says. *)
Lemma save_plot_empty_file_raises :
  save_plot 24 "/media/bigdata/plant_station/last_24h_plant_plot.png"
    {| csv := Some NoColumns; stdout := []; images := [] |}
  = (Raise EmptyDataError, {| csv := Some NoColumns; stdout := []; images := [] |})
  /\ ~ skips_or_plots 24 "/media/bigdata/plant_station/last_24h_plant_plot.png"
        {| csv := Some NoColumns; stdout := []; images := [] |}.
Proof.
  split; [reflexivity|].
  intros [H _].
  destruct H as (m & E & _).
  - right. left. exists NoColumns. split; [reflexivity | left; reflexivity].
  - discriminate E.
Qed.

(** ** Rounding in binary64 *)

Module Binary64Facts.
Import Floats.
Local Open Scope float_scope.

Lemma Zrange_In (lo : Z) (n : nat) (z : Z) :
  (lo <= z < lo + Z.of_nat n)%Z -> In z (Binary64.Zrange lo n).
Proof.
  revert lo. induction n as [|n IH]; intros lo H; [lia|].
  simpl. destruct (Z.eq_dec lo z) as [E|NE]; [left; exact E|].
  right. apply IH. lia.
Qed.

(** On every raw value of a 16-bit converter and for each of the four
    sensors, the binary64 result lies in [[0, 1]], is 1 up to the wet point,
    0 from the dry point on, and does not increase from one raw value to the
    next. *)
Lemma scale_moisture_on_adc_values (dry wet raw : Z) :
  In (dry, wet) Binary64.calibration ->
  (-32768 <= raw <= 65535)%Z ->
  Binary64.adc_ok dry wet raw = true.
Proof.
  intros Hcal Hraw.
  assert (Hin : In raw Binary64.adc_values).
  { unfold Binary64.adc_values. apply Zrange_In. lia. }
  assert (Hall : forallb (fun c => forallb (Binary64.adc_ok (fst c) (snd c))
                                           Binary64.adc_values)
                         Binary64.calibration = true)
    by (vm_compute; reflexivity).
  rewrite forallb_forall in Hall. specialize (Hall _ Hcal).
  rewrite forallb_forall in Hall. exact (Hall raw Hin).
Qed.

(** The first sensor at its calibration points and beyond them. *)
Example scale_moisture_wet : Binary64.scale_moisture 5000 14500 6000 = Ok 1.
Proof. reflexivity. Qed.

Example scale_moisture_dry : Binary64.scale_moisture 15000 14500 6000 = Ok 0.
Proof. reflexivity. Qed.

Example scale_moisture_between :
  Binary64.scale_moisture 6311 14500 6000 = Ok 0x1.ed444e8bfca08p-1.
Proof. reflexivity. Qed.

Example unscale_moisture_between :
  Binary64.unscale_moisture 0x1.ed444e8bfca08p-1 14500 6000 = 0x1.8a6ffffffffffp+12.
Proof. reflexivity. Qed.

Example mean_of_three_tenths :
  Binary64.mean Binary64.three_tenths = Some 0x1.999999999999bp-4.
Proof. reflexivity. Qed.

(** In binary64 the round trip of C8 loses the raw value 6311 of the first
    sensor: the inversion yields 6310.999999999999. *)
Lemma round_trip_inexact : ~ Binary64.round_trip 6311 14500 6000.
Proof.
  intro H.
  specialize (H eq_refl _ eq_refl eq_refl eq_refl).
  vm_compute in H. discriminate H.
Qed.

(** Three readings of 0.1 in one bin have the mean 0.10000000000000002. *)
Lemma mean_leaves_range : ~ Binary64.mean_within_range Binary64.three_tenths.
Proof.
  intro H.
  destruct (H Binary64.one_tenth Binary64.one_tenth _
              ltac:(repeat constructor) eq_refl) as [_ Hhi].
  vm_compute in Hhi. discriminate Hhi.
Qed.

End Binary64Facts.

(** Three rows one second apart asked for one bin share that bin, so their
    values are averaged together. *)
Example three_rows_one_bin :
  let df := [sample_reading 0 (1 # 10); sample_reading 1000000000 (1 # 10);
             sample_reading 2000000000 (1 # 10)] in
  exists r, smooth_data df Timestamp Temperature_C 1 = Ok [r]
            /\ bin_members Timestamp df 0 r = df.
Proof. eexists. split; reflexivity. Qed.

(** The statement of C10 fails in two ways: of two rows asked for three
    bins the middle output row carries no value at all; and in binary64 the
    mean of three readings of 0.1 that share a bin is above 0.1. *)
Lemma smoothed_values_leave_range :
  ~ every_value_within [sample_reading 0 1; sample_reading 10 3]
      Timestamp Soil_Moisture_1 3 1 3
  /\ ~ Binary64.mean_within_range Binary64.three_tenths.
Proof.
  split; [|exact Binary64Facts.mean_leaves_range].
  intros (out & Hout & Hrows).
  vm_compute in Hout. injection Hout as <-.
  destruct (Hrows _ (or_intror (or_introl eq_refl))) as (v & Hv & _).
  discriminate Hv.
Qed.

(** * Further properties *)

(** ** [scale_moisture]: failure, reversed calibration, units *)

(** X1: the only exception [scale_moisture] raises is [ZeroDivisionError],
    and it raises it exactly when the two calibration points coincide,
    whatever the raw value. *)
Theorem scale_moisture_raises_iff (raw dry wet : Q) (e : exn) :
  scale_moisture raw dry wet = Raise e <-> e = ZeroDivisionError /\ dry == wet.
Proof.
  split.
  - intro H. destruct (Qeq_dec dry wet) as [E|N].
    + rewrite (scale_moisture_undefined raw dry wet E) in H.
      injection H as <-. split; [reflexivity | exact E].
    + rewrite (scale_moisture_Ok raw dry wet N) in H. discriminate H.
  - intros [-> E]. apply scale_moisture_undefined, E.
Qed.

Lemma ratio_antitone (a b d : Q) : d < 0 -> a <= b -> b / d <= a / d.
Proof.
  intros Hd Hab.
  assert (Ha : a / d == - a / - d) by (field; lra).
  assert (Hb : b / d == - b / - d) by (field; lra).
  rewrite Ha, Hb. apply ratio_monotone; lra.
Qed.

(** X2: with the calibration points the other way round, [dry < wet], the
    transform is 1 from [wet] on, 0 up to [dry], and non-decreasing in the
    raw value. *)
Theorem scale_moisture_reversed_calibration (dry wet : Q) :
  dry < wet ->
  (forall raw, wet <= raw -> exists s, scale_moisture raw dry wet = Ok s /\ s == 1)
  /\ (forall raw, raw <= dry -> exists s, scale_moisture raw dry wet = Ok s /\ s == 0)
  /\ (forall raw1 raw2, raw1 <= raw2 ->
       exists s1 s2, scale_moisture raw1 dry wet = Ok s1
                     /\ scale_moisture raw2 dry wet = Ok s2
                     /\ s1 <= s2).
Proof.
  intro Hdw.
  assert (Hne : ~ dry == wet) by lra.
  assert (Hd : dry - wet < 0) by lra.
  repeat split.
  - intros raw Hraw. eexists. split; [apply scale_moisture_Ok, Hne|].
    pose proof (ratio_antitone 0 (raw - wet) (dry - wet) Hd ltac:(lra)) as R.
    assert (Z : 0 / (dry - wet) == 0) by (unfold Qdiv; ring).
    rewrite Z in R.
    revert R. unfold py_max, py_min.
    generalize ((raw - wet) / (dry - wet)). intros r R. case_Qltb; lra.
  - intros raw Hraw. eexists. split; [apply scale_moisture_Ok, Hne|].
    pose proof (ratio_antitone (raw - wet) (dry - wet) (dry - wet) Hd ltac:(lra)) as R.
    assert (Z : (dry - wet) / (dry - wet) == 1) by (field; lra).
    rewrite Z in R.
    revert R. unfold py_max, py_min.
    generalize ((raw - wet) / (dry - wet)). intros r R. case_Qltb; lra.
  - intros raw1 raw2 Hle. do 2 eexists.
    split; [apply scale_moisture_Ok, Hne|].
    split; [apply scale_moisture_Ok, Hne|].
    pose proof (ratio_antitone (raw1 - wet) (raw2 - wet) (dry - wet) Hd ltac:(lra)) as R.
    revert R. unfold py_max, py_min.
    generalize ((raw1 - wet) / (dry - wet)), ((raw2 - wet) / (dry - wet)).
    intros r1 r2 R. case_Qltb; lra.
Qed.

Lemma scale_moisture_reversed_calibration_witness :
  6000 < 14500 /\
  (exists s, scale_moisture 15000 6000 14500 = Ok s /\ s == 1) /\
  (exists s, scale_moisture 5000 6000 14500 = Ok s /\ s == 0) /\
  (exists s1 s2, scale_moisture 7000 6000 14500 = Ok s1
                 /\ scale_moisture 8000 6000 14500 = Ok s2 /\ s1 <= s2).
Proof.
  assert (H : 6000 < 14500) by reflexivity.
  destruct (scale_moisture_reversed_calibration 6000 14500 H) as (A & B & C).
  split; [exact H|].
  split; [apply A; discriminate|].
  split; [apply B; discriminate|].
  apply C. discriminate.
Defined.

(** X3: exchanging the dry and the wet calibration point turns the result
    [s] into [1 - s]. *)
Theorem scale_moisture_swap (raw dry wet : Q) :
  ~ dry == wet ->
  exists s s', scale_moisture raw dry wet = Ok s
               /\ scale_moisture raw wet dry = Ok s'
               /\ s + s' == 1.
Proof.
  intro Hne.
  assert (Hne' : ~ wet == dry) by (intro E; apply Hne; lra).
  do 2 eexists.
  split; [apply scale_moisture_Ok, Hne|].
  split; [apply scale_moisture_Ok, Hne'|].
  assert (R : (raw - dry) / (wet - dry) == 1 - (raw - wet) / (dry - wet)).
  { field. split; intro D; [apply Hne | apply Hne']; lra. }
  revert R. unfold py_max, py_min.
  generalize ((raw - wet) / (dry - wet)), ((raw - dry) / (wet - dry)).
  intros r r' R. case_Qltb; lra.
Qed.

Lemma scale_moisture_swap_witness :
  ~ 14500 == 6000
  /\ exists s s', scale_moisture 7000 14500 6000 = Ok s
                  /\ scale_moisture 7000 6000 14500 = Ok s'
                  /\ s + s' == 1.
Proof.
  assert (H : ~ 14500 == 6000) by (intro E; discriminate E).
  split; [exact H | exact (scale_moisture_swap 7000 14500 6000 H)].
Defined.

(** X4: the result does not depend on the unit of the readings: the same
    change of gain and offset applied to the raw value and to both
    calibration points leaves it as it was. *)
Theorem scale_moisture_affine (raw dry wet a b : Q) :
  ~ a == 0 -> ~ dry == wet ->
  exists s s', scale_moisture raw dry wet = Ok s
               /\ scale_moisture (a * raw + b) (a * dry + b) (a * wet + b) = Ok s'
               /\ s == s'.
Proof.
  intros Ha Hne.
  assert (Hne' : ~ a * dry + b == a * wet + b).
  { intro E. assert (E' : a * (dry - wet) == 0) by lra.
    apply Qmult_integral in E'. destruct E' as [E'|E']; [apply Ha, E' | apply Hne; lra]. }
  do 2 eexists.
  split; [apply scale_moisture_Ok, Hne|].
  split; [apply scale_moisture_Ok, Hne'|].
  assert (R : (a * raw + b - (a * wet + b)) / (a * dry + b - (a * wet + b))
              == (raw - wet) / (dry - wet)).
  { field. split; [intro D; apply Hne; lra|].
    intro D. apply Hne'. lra. }
  revert R. unfold py_max, py_min.
  generalize ((raw - wet) / (dry - wet)),
    ((a * raw + b - (a * wet + b)) / (a * dry + b - (a * wet + b))).
  intros r r' R. case_Qltb; lra.
Qed.

Lemma scale_moisture_affine_witness :
  ~ 2 == 0 /\ ~ 14500 == 6000
  /\ exists s s', scale_moisture 7000 14500 6000 = Ok s
                  /\ scale_moisture (2 * 7000 + 100) (2 * 14500 + 100) (2 * 6000 + 100)
                     = Ok s'
                  /\ s == s'.
Proof.
  assert (H1 : ~ 2 == 0) by (intro E; discriminate E).
  assert (H2 : ~ 14500 == 6000) by (intro E; discriminate E).
  split; [exact H1|]. split; [exact H2|].
  exact (scale_moisture_affine 7000 14500 6000 2 100 H1 H2).
Defined.

(** X5: between the calibration points the transform is the straight line
    [(dry - raw) / (dry - wet)], so a higher raw value gives a strictly
    lower result. *)
Theorem scale_moisture_strict_between (raw1 raw2 dry wet : Q) :
  wet <= raw1 -> raw1 < raw2 -> raw2 <= dry ->
  exists s1 s2, scale_moisture raw1 dry wet = Ok s1
                /\ scale_moisture raw2 dry wet = Ok s2
                /\ s2 < s1
                /\ s1 == (dry - raw1) / (dry - wet)
                /\ s2 == (dry - raw2) / (dry - wet).
Proof.
  intros H1 H12 H2.
  assert (Hne : ~ dry == wet) by lra.
  assert (Hd : 0 < dry - wet) by lra.
  do 2 eexists.
  split; [apply scale_moisture_Ok, Hne|].
  split; [apply scale_moisture_Ok, Hne|].
  assert (E1 : (dry - raw1) / (dry - wet) == 1 - (raw1 - wet) / (dry - wet)) by (field; lra).
  assert (E2 : (dry - raw2) / (dry - wet) == 1 - (raw2 - wet) / (dry - wet)) by (field; lra).
  rewrite E1, E2.
  pose proof (ratio_nonpos (wet - raw1) (dry - wet) Hd ltac:(lra)) as A.
  pose proof (ratio_ge_1 (dry - wet + (dry - raw2)) (dry - wet) Hd ltac:(lra)) as B.
  assert (A' : (wet - raw1) / (dry - wet) == - ((raw1 - wet) / (dry - wet))) by (field; lra).
  assert (B' : (dry - wet + (dry - raw2)) / (dry - wet)
               == 2 - (raw2 - wet) / (dry - wet)) by (field; lra).
  assert (C : (raw2 - wet) / (dry - wet) - (raw1 - wet) / (dry - wet)
              == (raw2 - raw1) / (dry - wet)) by (field; lra).
  assert (P : 0 < (raw2 - raw1) / (dry - wet)).
  { apply Qlt_shift_div_l; lra. }
  rewrite A' in A. rewrite B' in B.
  revert A B C P. unfold py_max, py_min.
  generalize ((raw1 - wet) / (dry - wet)), ((raw2 - wet) / (dry - wet)),
    ((raw2 - raw1) / (dry - wet)).
  intros r1 r2 d A B C P. case_Qltb; lra.
Qed.

Lemma scale_moisture_strict_between_witness :
  6000 <= 7000 /\ 7000 < 8000 /\ 8000 <= 14500
  /\ exists s1 s2, scale_moisture 7000 14500 6000 = Ok s1
                   /\ scale_moisture 8000 14500 6000 = Ok s2
                   /\ s2 < s1
                   /\ s1 == (14500 - 7000) / (14500 - 6000)
                   /\ s2 == (14500 - 8000) / (14500 - 6000).
Proof.
  assert (H1 : 6000 <= 7000) by discriminate.
  assert (H2 : 7000 < 8000) by reflexivity.
  assert (H3 : 8000 <= 14500) by discriminate.
  split; [exact H1|]. split; [exact H2|]. split; [exact H3|].
  exact (scale_moisture_strict_between 7000 8000 14500 6000 H1 H2 H3).
Defined.

(** ** [scale_moisture] in binary64: missing readings, converter values *)

Module Binary64Edge.
Import Floats.
Local Open Scope float_scope.

Lemma SFcompare_refl (s : spec_float) :
  s <> S754_nan -> SFcompare s s = Some Eq.
Proof.
  destruct s as [b|b| |b m e]; intro H; simpl; try congruence.
  - destruct b; reflexivity.
  - rewrite Z.compare_refl, Pos.compare_cont_refl. destruct b; reflexivity.
Qed.

Lemma is_nan_spec (x : float) : is_nan x = true -> Prim2SF x = S754_nan.
Proof.
  unfold is_nan. rewrite eqb_spec. unfold SFeqb. intro H.
  destruct (Prim2SF x) eqn:E; try reflexivity;
    rewrite SFcompare_refl in H by discriminate; discriminate H.
Qed.

Lemma sub_nan (x y : float) :
  Prim2SF x = S754_nan \/ Prim2SF y = S754_nan -> Prim2SF (x - y) = S754_nan.
Proof.
  rewrite sub_spec. unfold SF64sub, SFsub.
  intros [H|H]; rewrite H; [reflexivity|].
  destruct (Prim2SF x); reflexivity.
Qed.

Lemma div_nan (x y : float) :
  Prim2SF x = S754_nan \/ Prim2SF y = S754_nan -> Prim2SF (x / y) = S754_nan.
Proof.
  rewrite div_spec. unfold SF64div, SFdiv.
  intros [H|H]; rewrite H; [reflexivity|].
  destruct (Prim2SF x); reflexivity.
Qed.

Lemma ltb_nan (x y : float) : Prim2SF x = S754_nan -> (x <? y) = false.
Proof. intro H. rewrite ltb_spec, H. reflexivity. Qed.

Lemma scale_moisture_nan_ratio (raw dry wet : float) :
  Prim2SF ((raw - wet) / (dry - wet)) = S754_nan ->
  (dry - wet =? 0) = false ->
  Binary64.scale_moisture raw dry wet = Ok 0.
Proof.
  intros Hr Hd. unfold Binary64.scale_moisture, Binary64.true_div.
  rewrite Hd. cbn [bind]. unfold Binary64.py_min.
  rewrite (ltb_nan _ 1 Hr). reflexivity.
Qed.

(** X6: in binary64 a NaN among the three arguments does not come out as
    NaN: [min(1, nan)] keeps 1, so whenever the division is carried out the
    result is 0, the value of a dry sensor. *)
Theorem scale_moisture_nan (raw dry wet : float) :
  is_nan raw || is_nan dry || is_nan wet = true ->
  (dry - wet =? 0) = false ->
  Binary64.scale_moisture raw dry wet = Ok 0.
Proof.
  intros Hnan Hd. apply scale_moisture_nan_ratio; [|exact Hd].
  apply div_nan.
  apply orb_true_iff in Hnan. destruct Hnan as [Hnan|Hw].
  - apply orb_true_iff in Hnan. destruct Hnan as [Hr|Hdry].
    + left. apply sub_nan. left. apply is_nan_spec, Hr.
    + right. apply sub_nan. left. apply is_nan_spec, Hdry.
  - left. apply sub_nan. right. apply is_nan_spec, Hw.
Qed.

Lemma scale_moisture_nan_witness :
  is_nan nan || is_nan 14500 || is_nan 6000 = true
  /\ (14500 - 6000 =? 0) = false
  /\ Binary64.scale_moisture nan 14500 6000 = Ok 0.
Proof.
  assert (H1 : is_nan nan || is_nan 14500 || is_nan 6000 = true) by reflexivity.
  assert (H2 : (14500 - 6000 =? 0) = false) by reflexivity.
  split; [exact H1|]. split; [exact H2|].
  exact (scale_moisture_nan nan 14500 6000 H1 H2).
Defined.

(** X7: in binary64, for each of the four calibration pairs of the script
    and every integer raw value from -32768 to 65535, the call returns a
    value between 0 and 1, which is 1 up to the wet point and 0 from the dry
    point on, and the next raw value does not give a higher one. *)
Theorem scale_moisture_binary64_adc (dry wet raw : Z) :
  In (dry, wet) Binary64.calibration ->
  (-32768 <= raw <= 65535)%Z ->
  exists v v',
    Binary64.scale_moisture (Binary64.of_Z raw) (Binary64.of_Z dry) (Binary64.of_Z wet)
    = Ok v
    /\ Binary64.scale_moisture (Binary64.of_Z (raw + 1)) (Binary64.of_Z dry)
                               (Binary64.of_Z wet)
       = Ok v'
    /\ (0 <=? v) = true /\ (v <=? 1) = true /\ (v' <=? v) = true
    /\ ((raw <= wet)%Z -> (v =? 1) = true)
    /\ ((dry <= raw)%Z -> (v =? 0) = true).
Proof.
  intros Hcal Hraw.
  pose proof (Binary64Facts.scale_moisture_on_adc_values dry wet raw Hcal Hraw) as H.
  unfold Binary64.adc_ok in H.
  destruct (Binary64.scale_moisture (Binary64.of_Z raw) _ _) as [v|]; [|discriminate].
  destruct (Binary64.scale_moisture (Binary64.of_Z (raw + 1)) _ _) as [v'|]; [|discriminate].
  exists v, v'.
  repeat (apply andb_true_iff in H; destruct H as [H ?]).
  repeat split; try assumption.
  - intro L. apply Z.leb_le in L. rewrite L in *. assumption.
  - intro L. apply Z.leb_le in L. rewrite L in *. assumption.
Qed.

Lemma scale_moisture_binary64_adc_witness :
  In (14500, 6300)%Z Binary64.calibration
  /\ (-32768 <= 9000 <= 65535)%Z
  /\ exists v v',
       Binary64.scale_moisture (Binary64.of_Z 9000) (Binary64.of_Z 14500)
                               (Binary64.of_Z 6300) = Ok v
       /\ Binary64.scale_moisture (Binary64.of_Z (9000 + 1)) (Binary64.of_Z 14500)
                                  (Binary64.of_Z 6300) = Ok v'
       /\ (0 <=? v) = true /\ (v <=? 1) = true /\ (v' <=? v) = true.
Proof.
  assert (H1 : In (14500, 6300)%Z Binary64.calibration)
    by (right; left; reflexivity).
  assert (H2 : (-32768 <= 9000 <= 65535)%Z) by lia.
  split; [exact H1|]. split; [exact H2|].
  destruct (scale_moisture_binary64_adc 14500 6300 9000 H1 H2)
    as (v & v' & A & B & C & D & E & _).
  exists v, v'. repeat split; assumption.
Defined.

End Binary64Edge.

(** ** [smooth_data]: every output row *)

Lemma sort_values_sorted {row : Type} (x_col : row -> Z) (df : list row) :
  StronglySorted (fun a b => (x_col a <=? x_col b)%Z = true) (sort_values x_col df).
Proof.
  unfold sort_values. apply sort_by_sorted.
  - intros a b. rewrite !Z.leb_le. lia.
  - intros a b c. rewrite !Z.leb_le. lia.
Qed.

Lemma sort_values_nonempty {row : Type} (x_col : row -> Z) (df : list row) :
  df <> [] -> sort_values x_col df <> [].
Proof.
  intros H E. apply H. unfold sort_values in E.
  apply sort_by_nil_iff in E. exact E.
Qed.

Lemma sort_values_perm {row : Type} (x_col : row -> Z) (df : list row) :
  Permutation (sort_values x_col df) df.
Proof. unfold sort_values. apply sort_by_perm. Qed.

Lemma median_Some (l : list Q) : l <> [] -> exists m, median l = Some m.
Proof.
  intro H. rewrite (median_nonempty l H).
  destruct (Nat.even _); eexists; reflexivity.
Qed.

Lemma smooth_data_Ok_nonempty {row : Type} (df : list row) (x_col : row -> Z)
    (y_col : row -> Q) (num_bins : nat) (out : list smoothed_row) :
  smooth_data df x_col y_col num_bins = Ok out -> out <> [] -> df <> [].
Proof.
  intros Hout Hne E. subst df. unfold smooth_data in Hout.
  change (map x_col (sort_values x_col [])) with (@nil Z) in Hout.
  destruct (Nat.eq_dec num_bins 1) as [->|Hq].
  - vm_compute in Hout. discriminate Hout.
  - rewrite (qcut_bins_empty num_bins Hq) in Hout. injection Hout as <-.
    congruence.
Qed.

(** X8: in every output row the mean and the timestamp are missing
    together, namely when the row's bin holds no frame row; otherwise both
    are present and the timestamp lies inside the bin. *)
Theorem smoothed_row_consistent {row : Type} (df : list row) (x_col : row -> Z)
    (y_col : row -> Q) (num_bins : nat) (out : list smoothed_row) (i : nat)
    (r : smoothed_row) :
  smooth_data df x_col y_col num_bins = Ok out ->
  nth_error out i = Some r ->
  (bin_members x_col (sort_values x_col df) i r = []
   /\ value r = None /\ bin_Timestamp r = None)
  \/ (bin_members x_col (sort_values x_col df) i r <> []
      /\ exists v t, value r = Some v /\ bin_Timestamp r = Some t
                     /\ fst (Bin r) <= t <= snd (Bin r)).
Proof.
  intros Hout Hr.
  assert (Hne : df <> []).
  { apply (smooth_data_Ok_nonempty df x_col y_col num_bins out Hout).
    intro E. subst out. destruct i; discriminate Hr. }
  rewrite (smooth_data_nth x_col y_col df Hne num_bins out i Hout) in Hr.
  set (bins := kept_edges (map x_col (sort_values x_col df)) num_bins) in *.
  destruct (S i <? length bins)%nat eqn:Ei; [|discriminate Hr].
  apply Nat.ltb_lt in Ei. injection Hr as <-.
  pose proof (group_interval x_col df Hne num_bins i Ei) as Hg.
  pose proof (group_within x_col df Hne num_bins i Ei) as Hw.
  fold bins in Hg, Hw.
  unfold bin_members, bin_row. cbn [Bin value bin_Timestamp fst snd].
  rewrite <- Hg.
  destruct (group x_col bins (sort_values x_col df) i) as [|d g] eqn:Eg.
  - left. repeat split.
  - right. split; [discriminate|].
    destruct (mean_Some (map y_col (d :: g)) ltac:(discriminate)) as [v Hv].
    destruct (median_Some (map (fun r => inject_Z (x_col r)) (d :: g))
                ltac:(discriminate)) as [t Ht].
    exists v, t. split; [exact Hv|]. split; [exact Ht|].
    apply (median_bounds _ _ _ t Hw Ht).
Qed.

Lemma smoothed_row_consistent_witness :
  let df := [sample_reading 0 1; sample_reading 10 3] in
  exists out r,
    smooth_data df Timestamp Soil_Moisture_1 3 = Ok out
    /\ nth_error out 1 = Some r
    /\ ((bin_members Timestamp (sort_values Timestamp df) 1 r = []
         /\ value r = None /\ bin_Timestamp r = None)
        \/ (bin_members Timestamp (sort_values Timestamp df) 1 r <> []
            /\ exists v t, value r = Some v /\ bin_Timestamp r = Some t
                           /\ fst (Bin r) <= t <= snd (Bin r))).
Proof.
  intro df. do 2 eexists.
  assert (H1 : smooth_data df Timestamp Soil_Moisture_1 3
               = Ok (smoothed_frame df Timestamp Soil_Moisture_1 3)) by reflexivity.
  assert (H2 : nth_error (smoothed_frame df Timestamp Soil_Moisture_1 3) 1
               = Some (nth 1 (smoothed_frame df Timestamp Soil_Moisture_1 3)
                           (mkSmoothed (0, 0) None None))) by reflexivity.
  split; [exact H1|]. split; [exact H2|].
  exact (smoothed_row_consistent df Timestamp Soil_Moisture_1 3 _ 1 _ H1 H2).
Defined.

(** ** [smooth_data]: the order of the input rows *)

Lemma Qplus_swap (x y s : Q) : x + (y + s) = y + (x + s).
Proof.
  destruct x as [xn xd], y as [yn yd], s as [sn sd].
  unfold Qplus. cbn [Qnum Qden]. f_equal.
  - rewrite !Pos2Z.inj_mul. ring.
  - rewrite !Pos.mul_assoc, (Pos.mul_comm xd yd). reflexivity.
Qed.

Lemma Qsum_perm (l l' : list Q) : Permutation l l' -> Qsum l = Qsum l'.
Proof.
  unfold Qsum. induction 1 as [|x l l' _ IH|x y l|l l' l'' _ IH1 _ IH2]; simpl.
  - reflexivity.
  - rewrite IH. reflexivity.
  - apply Qplus_swap.
  - rewrite IH1. exact IH2.
Qed.

Lemma mean_perm (l l' : list Q) : Permutation l l' -> mean l = mean l'.
Proof.
  intro H. pose proof (Permutation_length H) as Hlen.
  pose proof (Qsum_perm l l' H) as Hsum.
  destruct l as [|a l], l' as [|a' l']; try discriminate Hlen; [reflexivity|].
  unfold mean. rewrite Hsum, Hlen. reflexivity.
Qed.

Lemma filter_perm {A : Type} (f : A -> bool) (l l' : list A) :
  Permutation l l' -> Permutation (filter f l) (filter f l').
Proof.
  induction 1 as [|x l l' _ IH|x y l|l l' l'' _ IH1 _ IH2]; simpl.
  - constructor.
  - destruct (f x); [apply perm_skip|]; exact IH.
  - destruct (f x), (f y); try apply Permutation_refl. apply perm_swap.
  - eapply perm_trans; eassumption.
Qed.

Lemma sorted_perm_eq (l l' : list Z) :
  StronglySorted Z.le l -> StronglySorted Z.le l' -> Permutation l l' -> l = l'.
Proof.
  intro Hs. revert l'. induction Hs as [|a l Hs IH Hall]; intros l' Hs' Hp.
  - apply Permutation_nil in Hp. subst. reflexivity.
  - destruct Hs' as [|a' l' Hs' Hall'].
    + apply Permutation_sym, Permutation_nil in Hp. discriminate Hp.
    + rewrite Forall_forall in Hall, Hall'.
      assert (Ea : a = a').
      { assert (H1 : In a (a' :: l'))
          by (apply (Permutation_in _ Hp); left; reflexivity).
        assert (H2 : In a' (a :: l))
          by (apply (Permutation_in _ (Permutation_sym Hp)); left; reflexivity).
        destruct H1 as [H1|H1]; [congruence|].
        destruct H2 as [H2|H2]; [congruence|].
        pose proof (Hall a' H2). pose proof (Hall' a H1). lia. }
      subst a'. f_equal. apply IH; [exact Hs'|].
      apply (Permutation_cons_inv Hp).
Qed.

Lemma StronglySorted_map {A B : Type} (R : A -> A -> Prop) (S : B -> B -> Prop)
    (f : A -> B) (l : list A) :
  (forall a b, R a b -> S (f a) (f b)) ->
  StronglySorted R l -> StronglySorted S (map f l).
Proof.
  intros H. induction 1 as [|a l Hs IH Hall]; simpl; constructor; [exact IH|].
  rewrite Forall_forall in *. intros y Hy.
  apply in_map_iff in Hy. destruct Hy as (b & <- & Hb). apply H, Hall, Hb.
Qed.

(** The time column of the sorted frame depends on the rows only as a
    collection. *)
Lemma sorted_keys_perm {row : Type} (x_col : row -> Z) (df df' : list row) :
  Permutation df df' ->
  map x_col (sort_values x_col df) = map x_col (sort_values x_col df').
Proof.
  intro Hp. apply sorted_perm_eq.
  - apply (StronglySorted_map _ _ _ _ (fun a b H => proj1 (Z.leb_le _ _) H)
             (sort_values_sorted x_col df)).
  - apply (StronglySorted_map _ _ _ _ (fun a b H => proj1 (Z.leb_le _ _) H)
             (sort_values_sorted x_col df')).
  - apply Permutation_map.
    eapply perm_trans; [apply sort_values_perm|].
    eapply perm_trans; [exact Hp|]. apply Permutation_sym, sort_values_perm.
Qed.

Lemma group_keys {row : Type} (x_col : row -> Z) (bins : list Q) (df : list row)
    (c : nat) :
  map (fun r => inject_Z (x_col r)) (group x_col bins df c)
  = filter (fun v => code_is c (bin_code bins v))
           (map inject_Z (map x_col df)).
Proof.
  unfold group. rewrite map_map.
  rewrite (filter_map_comm (fun v => code_is c (bin_code bins v))
             (fun r => inject_Z (x_col r)) df).
  reflexivity.
Qed.

(** X9: in exact arithmetic the result of [smooth_data] does not depend on
    the order in which the frame lists its rows: bins, means and timestamps
    are the same for every rearrangement, or the same exception is
    raised. *)
Theorem smooth_data_order_independent {row : Type} (df df' : list row)
    (x_col : row -> Z) (y_col : row -> Q) (num_bins : nat) :
  Permutation df df' ->
  smooth_data df' x_col y_col num_bins = smooth_data df x_col y_col num_bins.
Proof.
  intro Hp. unfold smooth_data.
  pose proof (sorted_keys_perm x_col df df' Hp) as Hk.
  rewrite <- Hk.
  destruct (from_breaks (qcut_bins (map x_col (sort_values x_col df)) num_bins))
    as [categories|e]; [|reflexivity].
  cbn [bind]. f_equal. apply map_ext. intros [c iv].
  unfold bin_row. cbn [fst snd]. f_equal.
  - apply mean_perm, Permutation_map. unfold group. apply filter_perm.
    eapply perm_trans; [apply sort_values_perm|].
    eapply perm_trans; [apply Permutation_sym, Hp|].
    apply Permutation_sym, sort_values_perm.
  - rewrite !group_keys, Hk. reflexivity.
Qed.

Lemma smooth_data_order_independent_witness :
  let df := [sample_reading 0 1; sample_reading 10 3; sample_reading 20 8] in
  let df' := [sample_reading 10 3; sample_reading 0 1; sample_reading 20 8] in
  Permutation df df'
  /\ smooth_data df' Timestamp Soil_Moisture_1 2
     = smooth_data df Timestamp Soil_Moisture_1 2.
Proof.
  intros df df'.
  assert (H : Permutation df df') by apply perm_swap.
  split; [exact H | exact (smooth_data_order_independent df df' _ _ 2 H)].
Defined.

(** ** [smooth_data]: a change of unit of the value column *)

Lemma Qsum_affine {row : Type} (y_col : row -> Q) (a b : Q) (g : list row) :
  Qsum (map (fun d => a * y_col d + b) g)
  == a * Qsum (map y_col g) + inject_Z (Z.of_nat (length g)) * b.
Proof.
  induction g as [|d g IH].
  - change (inject_Z (Z.of_nat (length (@nil row)))) with 0.
    change (Qsum (map y_col [])) with 0.
    change (Qsum (map (fun d => a * y_col d + b) [])) with 0. ring.
  - change (Qsum (map (fun d => a * y_col d + b) (d :: g)))
      with (a * y_col d + b + Qsum (map (fun d => a * y_col d + b) g)).
    change (Qsum (map y_col (d :: g))) with (y_col d + Qsum (map y_col g)).
    replace (Z.of_nat (length (d :: g))) with (1 + Z.of_nat (length g))%Z
      by (simpl length; lia).
    rewrite inject_Z_plus, IH. change (inject_Z 1) with 1. ring.
Qed.

Lemma mean_affine {row : Type} (y_col : row -> Q) (a b : Q) (g : list row) :
  affine_image a b (mean (map y_col g)) (mean (map (fun d => a * y_col d + b) g)).
Proof.
  destruct g as [|d g]; [exact I|].
  unfold affine_image.
  rewrite !mean_nonempty by discriminate.
  rewrite Qsum_affine, !length_map.
  assert (Hn : ~ inject_Z (Z.of_nat (length (d :: g))) == 0).
  { change 0 with (inject_Z 0). rewrite inject_Z_injective. simpl length. lia. }
  revert Hn. generalize (inject_Z (Z.of_nat (length (d :: g)))), (Qsum (map y_col (d :: g))).
  intros n s Hn. field. exact Hn.
Qed.

(** X10: in exact arithmetic smoothing commutes with a change of unit of
    the value column: smoothing [a * y + b] gives the same bins and
    timestamps as smoothing [y], and each mean is [a * m + b] for the mean
    [m] of [y], missing where that one is.  With [a = 9/5] and [b = 32] this
    is the Fahrenheit line that [save_plot] derives from the smoothed
    Celsius column. *)
Theorem smooth_data_affine {row : Type} (df : list row) (x_col : row -> Z)
    (y_col : row -> Q) (a b : Q) (num_bins : nat) (out : list smoothed_row) :
  smooth_data df x_col y_col num_bins = Ok out ->
  exists out',
    smooth_data df x_col (fun d => a * y_col d + b) num_bins = Ok out'
    /\ Forall2 (fun r r' => Bin r' = Bin r
                            /\ bin_Timestamp r' = bin_Timestamp r
                            /\ affine_image a b (value r) (value r'))
               out out'.
Proof.
  unfold smooth_data.
  destruct (from_breaks (qcut_bins (map x_col (sort_values x_col df)) num_bins))
    as [categories|e]; [|discriminate].
  cbn [bind]. intro H. injection H as <-. eexists. split; [reflexivity|].
  induction (combine (seq 0 (length categories)) categories) as [|ci l IH];
    simpl; constructor; [|exact IH].
  unfold bin_row. cbn [Bin value bin_Timestamp].
  split; [reflexivity|]. split; [reflexivity|]. apply mean_affine.
Qed.

Lemma smooth_data_affine_witness :
  let df := [sample_reading 0 10; sample_reading 10 20; sample_reading 20 30] in
  exists out out',
    smooth_data df Timestamp Temperature_C 2 = Ok out
    /\ smooth_data df Timestamp (fun d => (9 # 5) * Temperature_C d + 32) 2 = Ok out'
    /\ Forall2 (fun r r' => Bin r' = Bin r
                            /\ bin_Timestamp r' = bin_Timestamp r
                            /\ affine_image (9 # 5) 32 (value r) (value r'))
               out out'.
Proof.
  intro df.
  assert (H : smooth_data df Timestamp Temperature_C 2
              = Ok (smoothed_frame df Timestamp Temperature_C 2)) by reflexivity.
  destruct (smooth_data_affine df Timestamp Temperature_C (9 # 5) 32 2 _ H)
    as (out' & H1 & H2).
  exists (smoothed_frame df Timestamp Temperature_C 2), out'.
  split; [exact H|]. split; [exact H1 | exact H2].
Defined.

(** ** [smooth_data]: the bins share out the frame *)

Lemma concat_groups_cons {A : Type} (f : A -> option nat) (a : A) (l : list A)
    (i0 s n : nat) :
  f a = Some i0 ->
  Permutation
    (concat (map (fun i => filter (fun d => code_is i (f d)) (a :: l)) (seq s n)))
    ((if (s <=? i0)%nat && (i0 <? s + n)%nat then [a] else [])
     ++ concat (map (fun i => filter (fun d => code_is i (f d)) l) (seq s n))).
Proof.
  intro Ha.
  set (F := fun i => filter (fun d => code_is i (f d)) (a :: l)).
  set (G := fun i => filter (fun d => code_is i (f d)) l).
  assert (HF : forall i, F i = if (i0 =? i)%nat then a :: G i else G i).
  { intro i. unfold F, G. cbn [filter]. rewrite Ha. reflexivity. }
  clearbody F G. revert s. induction n as [|n IH]; intro s.
  - simpl. rewrite Nat.add_0_r.
    destruct ((s <=? i0)%nat && (i0 <? s)%nat) eqn:E; [|constructor].
    apply andb_true_iff in E. destruct E as [E1 E2].
    apply Nat.leb_le in E1. apply Nat.ltb_lt in E2. lia.
  - cbn [seq map concat]. rewrite HF.
    specialize (IH (S s)).
    destruct (i0 =? s)%nat eqn:E.
    + apply Nat.eqb_eq in E. subst i0.
      replace ((S s <=? s)%nat && (s <? S s + n)%nat) with false in IH
        by (symmetry; apply andb_false_iff; left; apply Nat.leb_gt; lia).
      replace ((s <=? s)%nat && (s <? s + S n)%nat) with true
        by (symmetry; apply andb_true_iff; split;
            [apply Nat.leb_le | apply Nat.ltb_lt]; lia).
      simpl. apply perm_skip. apply Permutation_app_head. exact IH.
    + apply Nat.eqb_neq in E.
      replace ((s <=? i0)%nat && (i0 <? s + S n)%nat)
        with ((S s <=? i0)%nat && (i0 <? S s + n)%nat).
      2:{ apply eq_true_iff_eq. rewrite !andb_true_iff, !Nat.leb_le, !Nat.ltb_lt. lia. }
      eapply perm_trans; [apply Permutation_app_head, IH|].
      rewrite !app_assoc. apply Permutation_app_tail.
      apply Permutation_app_comm.
Qed.

(** Rows that all carry one of the codes [0 .. k-1], grouped by code and
    put end to end, are the rows again. *)
Lemma concat_groups {A : Type} (f : A -> option nat) (l : list A) (k : nat) :
  (forall a, In a l -> exists i, f a = Some i /\ (i < k)%nat) ->
  Permutation
    (concat (map (fun i => filter (fun d => code_is i (f d)) l) (seq 0 k))) l.
Proof.
  induction l as [|a l IH]; intro H.
  - simpl. clear. generalize 0%nat. induction k as [|k IH]; intro s; simpl;
      [constructor | apply IH].
  - destruct (H a (or_introl eq_refl)) as (i0 & Ha & Hi).
    eapply perm_trans; [apply (concat_groups_cons f a l i0 0 k Ha)|].
    replace ((0 <=? i0)%nat && (i0 <? 0 + k)%nat) with true
      by (symmetry; apply andb_true_iff; split;
          [apply Nat.leb_le | apply Nat.ltb_lt]; lia).
    simpl. apply perm_skip. apply IH. intros b Hb. apply H. right. exact Hb.
Qed.

Lemma Qsum_app (l l' : list Q) : Qsum (l ++ l') == Qsum l + Qsum l'.
Proof.
  induction l as [|a l IH]; simpl.
  - change (Qsum []) with 0. ring.
  - change (Qsum (a :: l ++ l')) with (a + Qsum (l ++ l')).
    change (Qsum (a :: l)) with (a + Qsum l). rewrite IH. ring.
Qed.

Lemma mean_times_length (l : list Q) :
  match mean l with
  | Some v => inject_Z (Z.of_nat (length l)) * v
  | None => 0
  end == Qsum l.
Proof.
  destruct l as [|a l]; [reflexivity|].
  rewrite mean_nonempty by discriminate.
  assert (Hn : ~ inject_Z (Z.of_nat (length (a :: l))) == 0).
  { change 0 with (inject_Z 0). rewrite inject_Z_injective. simpl length. lia. }
  revert Hn. generalize (inject_Z (Z.of_nat (length (a :: l)))), (Qsum (a :: l)).
  intros n s Hn. field. exact Hn.
Qed.

Lemma enumerate_from {A : Type} (d : A) (l : list A) (a : nat) :
  combine (seq a (length l)) l
  = map (fun i => (i, nth (i - a) l d)) (seq a (length l)).
Proof.
  revert a. induction l as [|v l IH]; intro a; simpl; [reflexivity|].
  rewrite Nat.sub_diag. f_equal. rewrite IH. apply map_ext_in.
  intros i Hi. apply in_seq in Hi.
  replace (i - a)%nat with (S (i - S a)) by lia. reflexivity.
Qed.

Lemma enumerate_seq {A : Type} (d : A) (l : list A) :
  enumerate l = map (fun i => (i, nth i l d)) (seq 0 (length l)).
Proof.
  unfold enumerate. rewrite (enumerate_from d l 0). apply map_ext.
  intro i. rewrite Nat.sub_0_r. reflexivity.
Qed.

Lemma Qsum_ext {A : Type} (f g : A -> Q) (l : list A) :
  (forall a, In a l -> f a == g a) -> Qsum (map f l) == Qsum (map g l).
Proof.
  induction l as [|a l IH]; intro H; [reflexivity|].
  change (Qsum (map f (a :: l))) with (f a + Qsum (map f l)).
  change (Qsum (map g (a :: l))) with (g a + Qsum (map g l)).
  rewrite (H a (or_introl eq_refl)), IH; [reflexivity|].
  intros b Hb. apply H. right. exact Hb.
Qed.

Lemma Qsum_concat {A : Type} (y : A -> Q) (gs : list (list A)) :
  Qsum (map (fun g => Qsum (map y g)) gs) == Qsum (map y (concat gs)).
Proof.
  induction gs as [|g gs IH]; [reflexivity|].
  change (Qsum (map (fun g => Qsum (map y g)) (g :: gs)))
    with (Qsum (map y g) + Qsum (map (fun g => Qsum (map y g)) gs)).
  simpl concat. rewrite map_app, Qsum_app, IH. reflexivity.
Qed.

(** X11: when [smooth_data] returns at least one row, the bins share out
    the frame: their populations add up to the number of frame rows, and
    the means weighted by the populations add up to the sum of the value
    column, so that no reading is lost or counted twice. *)
Theorem smooth_data_conserves {row : Type} (df : list row) (x_col : row -> Z)
    (y_col : row -> Q) (num_bins : nat) (out : list smoothed_row) :
  smooth_data df x_col y_col num_bins = Ok out -> out <> [] ->
  list_sum (map (population x_col (sort_values x_col df)) (enumerate out))
  = length df
  /\ Qsum (map (weighted_value x_col (sort_values x_col df)) (enumerate out))
     == Qsum (map y_col df).
Proof.
  intros Hout Hout_ne.
  pose proof (smooth_data_Ok_nonempty df x_col y_col num_bins out Hout Hout_ne) as Hne.
  destruct (smooth_data_length x_col y_col df Hne num_bins out Hout) as [Hlen _].
  pose proof (smooth_data_nth x_col y_col df Hne num_bins out) as Hnth.
  pose proof (bins_sorted x_col df Hne num_bins) as Hsorted.
  set (sorted := sort_values x_col df) in *.
  set (bins := kept_edges (map x_col sorted) num_bins) in *.
  set (G := fun i => filter (fun d => code_is i (bin_code bins (inject_Z (x_col d))))
                            sorted).
  assert (H2 : (2 <= length bins)%nat).
  { destruct out; [congruence | simpl in Hlen; lia]. }
  assert (Hrow : forall i, In i (seq 0 (length out)) ->
            nth i out (mkSmoothed (0, 0) None None)
            = bin_row x_col y_col bins sorted (i, (nth i bins 0, nth (S i) bins 0))
            /\ bin_members x_col sorted i (nth i out (mkSmoothed (0, 0) None None))
               = G i).
  { intros i Hi. apply in_seq in Hi.
    assert (Hi' : (S i < length bins)%nat) by lia.
    assert (E : nth i out (mkSmoothed (0, 0) None None)
                = bin_row x_col y_col bins sorted (i, (nth i bins 0, nth (S i) bins 0))).
    { apply nth_error_nth. rewrite (Hnth i Hout).
      apply Nat.ltb_lt in Hi'. rewrite Hi'. reflexivity. }
    split; [exact E|]. rewrite E. unfold bin_members, bin_row, G. cbn [Bin].
    apply filter_ext. intro d. symmetry.
    apply bin_code_interval; assumption. }
  assert (Hperm : Permutation (concat (map G (seq 0 (length out)))) sorted).
  { apply concat_groups. intros d Hd.
    assert (Hd' : In d df)
      by (apply (Permutation_in _ (sort_values_perm x_col df)); exact Hd).
    destruct (row_assigned x_col df Hne num_bins d H2 Hd') as (i & Hi & Hcode).
    exists i. split; [exact Hcode | fold sorted in Hi; fold bins in Hi; lia]. }
  rewrite (enumerate_seq (mkSmoothed (0, 0) None None) out), !map_map.
  split.
  - rewrite (map_ext_in _ (fun i => length (G i))).
    2:{ intros i Hi. unfold population. cbn [fst snd].
        rewrite (proj2 (Hrow i Hi)). reflexivity. }
    rewrite <- (map_map G (@length row)), <- length_concat.
    rewrite (Permutation_length Hperm).
    apply Permutation_length, sort_values_perm.
  - rewrite (Qsum_ext _ (fun i => Qsum (map y_col (G i)))).
    2:{ intros i Hi. unfold weighted_value, population. cbn [fst snd].
        destruct (Hrow i Hi) as [E1 E2]. rewrite E2, E1.
        unfold bin_row. cbn [value fst]. fold (G i).
        rewrite <- (length_map y_col (G i)). apply mean_times_length. }
    rewrite <- (map_map G (fun g => Qsum (map y_col g))), Qsum_concat.
    rewrite (Qsum_perm _ _ (Permutation_map y_col Hperm)).
    rewrite (Qsum_perm (map y_col sorted) (map y_col df)); [reflexivity|].
    apply Permutation_map, sort_values_perm.
Qed.

Lemma smooth_data_conserves_witness :
  let df := [sample_reading 0 1; sample_reading 10 3; sample_reading 20 8] in
  let out := smoothed_frame df Timestamp Soil_Moisture_1 2 in
  smooth_data df Timestamp Soil_Moisture_1 2 = Ok out /\ out <> []
  /\ list_sum (map (population Timestamp (sort_values Timestamp df)) (enumerate out))
     = length df
  /\ Qsum (map (weighted_value Timestamp (sort_values Timestamp df)) (enumerate out))
     == Qsum (map Soil_Moisture_1 df).
Proof.
  intros df out.
  assert (H1 : smooth_data df Timestamp Soil_Moisture_1 2 = Ok out) by reflexivity.
  assert (H2 : out <> []) by (intro E; vm_compute in E; discriminate E).
  split; [exact H1|]. split; [exact H2|].
  exact (smooth_data_conserves df Timestamp Soil_Moisture_1 2 out H1 H2).
Defined.

(** ** [smooth_data]: how many rows come back *)

Lemma constant_sample_edges (xs : list Z) (t : Z) (q : nat) (e : Q) :
  xs <> [] -> (forall x, In x xs -> x = t) ->
  In e (quantile_edges xs q) -> e == inject_Z t.
Proof.
  intros Hne Hall He. unfold quantile_edges, linspace01 in He.
  rewrite map_map in He. apply in_map_iff in He. destruct He as (j & <- & Hj).
  apply in_seq in Hj.
  set (s := sort_by Z.leb xs) in *.
  assert (Hs : s <> []) by (unfold s; rewrite sort_by_nil_iff; exact Hne).
  assert (Hnth : forall i, (0 <= i <= Z.of_nat (length s) - 1)%Z ->
                           nth (Z.to_nat i) s 0%Z = t).
  { intros i Hi. apply Hall. apply (sort_by_In Z.leb). fold s. apply nth_In. lia. }
  pose proof (linspace_point_range q j ltac:(lia)) as Rj.
  pose proof (last_nonneg s Hs) as HL.
  assert (Hh : 0 <= inject_Z (Z.of_nat j) / inject_Z (Z.of_nat q)
                    * inject_Z (Z.of_nat (length s) - 1)
               <= inject_Z (Z.of_nat (length s) - 1)).
  { assert (0 <= inject_Z (Z.of_nat (length s) - 1))
      by (change 0 with (inject_Z 0); rewrite <- Zle_Qle; exact HL).
    revert Rj. generalize (inject_Z (Z.of_nat j) / inject_Z (Z.of_nat q)).
    intros p Rj. split; nra. }
  pose proof (floor_bounds s _ Hh) as Hf.
  destruct (interpolate_between s (Zsort_sorted xs) _ Hh) as [Lo Hi].
  rewrite Hnth in Lo, Hi by lia. lra.
Qed.

Lemma constant_sample_kept (xs : list Z) (t : Z) (q : nat) :
  xs <> [] -> (forall x, In x xs -> x = t) -> q <> 1%nat ->
  length (kept_edges xs q) = 1%nat.
Proof.
  intros Hne Hall Hq. unfold kept_edges.
  pose proof (constant_sample_edges xs t q) as He.
  pose proof (quantile_edges_length xs q) as Hlen.
  destruct (quantile_edges xs q) as [|e rest]; [discriminate|].
  rewrite drop_duplicates_all_equal; [reflexivity | | simpl in Hlen; lia].
  intros y Hy. apply Qeq_eq_bool.
  rewrite (He e Hne Hall (or_introl eq_refl)), (He y Hne Hall (or_intror Hy)).
  reflexivity.
Qed.

Lemma smoothed_frame_one_instant {row : Type} (df : list row) (x_col : row -> Z)
    (y_col : row -> Q) (num_bins : nat) (t : Z) :
  df <> [] -> (forall d, In d df -> x_col d = t) -> num_bins <> 1%nat ->
  smoothed_frame df x_col y_col num_bins = [].
Proof.
  intros Hne Hall Hq. unfold smoothed_frame.
  assert (Hlen : length (kept_edges (map x_col (sort_values x_col df)) num_bins) = 1%nat).
  { apply (constant_sample_kept _ t).
    - intro E. apply map_eq_nil in E. apply (sort_values_nonempty x_col df Hne E).
    - intros x Hx. apply in_map_iff in Hx. destruct Hx as (d & <- & Hd).
      apply Hall. apply (Permutation_in _ (sort_values_perm x_col df)). exact Hd.
    - exact Hq. }
  destruct (kept_edges (map x_col (sort_values x_col df)) num_bins) as [|a [|b l]];
    simpl in Hlen; try lia.
  reflexivity.
Qed.

(** X12: a frame whose rows all carry the same timestamp, however many
    they are, is smoothed to an empty frame for every bin count other than
    1: all quantile edges coincide and no bin is left. *)
Theorem smooth_data_one_instant {row : Type} (df : list row) (x_col : row -> Z)
    (y_col : row -> Q) (num_bins : nat) (t : Z) :
  df <> [] -> (forall d, In d df -> x_col d = t) -> num_bins <> 1%nat ->
  smooth_data df x_col y_col num_bins = Ok [].
Proof.
  intros Hne Hall Hq. rewrite (smooth_data_frame df x_col y_col num_bins Hne).
  f_equal. apply (smoothed_frame_one_instant df x_col y_col num_bins t Hne Hall Hq).
Qed.

Lemma smooth_data_one_instant_witness :
  let df := [sample_reading 5 7000; sample_reading 5 8000; sample_reading 5 9000] in
  df <> [] /\ (forall d, In d df -> Timestamp d = 5%Z) /\ default_num_bins <> 1%nat
  /\ smooth_data df Timestamp Soil_Moisture_1 default_num_bins = Ok [].
Proof.
  intro df.
  assert (H1 : df <> []) by discriminate.
  assert (H2 : forall d, In d df -> Timestamp d = 5%Z)
    by (intros d [<-|[<-|[<-|[]]]]; reflexivity).
  assert (H3 : default_num_bins <> 1%nat) by discriminate.
  split; [exact H1|]. split; [exact H2|]. split; [exact H3|].
  exact (smooth_data_one_instant df Timestamp Soil_Moisture_1 default_num_bins 5 H1 H2 H3).
Defined.

Section StrictInterpolation.
Variable s : list Z.
Hypothesis s_sorted : StronglySorted (fun a b => (a <=? b)%Z = true) s.
Hypothesis s_nodup : NoDup s.

Lemma strict_order_statistics (i j : nat) :
  (i < j < length s)%nat -> (nth i s 0 < nth j s 0)%Z.
Proof.
  intro Hij.
  pose proof (Zsorted_nth s i j s_sorted ltac:(lia)) as Hle.
  assert (Hneq : nth i s 0%Z <> nth j s 0%Z).
  { intro E. apply (proj1 (NoDup_nth s 0%Z) s_nodup) in E; lia. }
  lia.
Qed.

Lemma interpolate_strict (h h' : Q) :
  0 <= h -> h < h' -> h' <= inject_Z (Z.of_nat (length s) - 1) ->
  interpolate s h < interpolate s h'.
Proof.
  intros H0 Hhh H1.
  set (last := (Z.of_nat (length s) - 1)%Z) in *.
  assert (Hh : 0 <= h <= inject_Z last) by lra.
  assert (Hh' : 0 <= h' <= inject_Z last) by lra.
  pose proof (floor_bounds s h Hh) as Hf.
  pose proof (floor_bounds s h' Hh') as Hf'.
  fold last in Hf, Hf'.
  pose proof (Qfloor_resp_le h h' (Qlt_le_weak _ _ Hhh)) as Hff.
  pose proof (frac_bounds h) as Hg. pose proof (frac_bounds h') as Hg'.
  destruct (Z.eq_dec (Qfloor h) (Qfloor h')) as [E|NE].
  - assert (Hlt : (Qfloor h < last)%Z).
    { destruct (Z.eq_dec (Qfloor h) last) as [El|]; [|lia].
      exfalso. rewrite El in Hg. lra. }
    assert (Hab : inject_Z (nth (Z.to_nat (Qfloor h')) s 0%Z)
                  < inject_Z (nth (Z.to_nat (Z.min (Qfloor h' + 1) last)) s 0%Z)).
    { rewrite <- Zlt_Qlt. apply strict_order_statistics. unfold last in *. lia. }
    unfold interpolate. fold last. rewrite E in *.
    revert Hab.
    generalize (inject_Z (nth (Z.to_nat (Qfloor h')) s 0%Z)).
    generalize (inject_Z (nth (Z.to_nat (Z.min (Qfloor h' + 1) last)) s 0%Z)).
    intros b a Hab.
    assert (0 < (h' - h) * (b - a)) by (apply Qmult_lt_0_compat; lra).
    lra.
  - destruct (interpolate_between s s_sorted h' Hh') as [Hlow _].
    assert (Hmin : Z.min (Qfloor h + 1) last = (Qfloor h + 1)%Z) by lia.
    assert (Hab : inject_Z (nth (Z.to_nat (Qfloor h)) s 0%Z)
                  < inject_Z (nth (Z.to_nat (Qfloor h + 1)) s 0%Z)).
    { rewrite <- Zlt_Qlt. apply strict_order_statistics. unfold last in *. lia. }
    assert (Hbc : inject_Z (nth (Z.to_nat (Qfloor h + 1)) s 0%Z)
                  <= inject_Z (nth (Z.to_nat (Qfloor h')) s 0%Z)).
    { rewrite <- Zle_Qle. apply Zsorted_nth; [exact s_sorted|]. unfold last in *. lia. }
    eapply Qlt_le_trans; [|exact Hlow].
    eapply Qlt_le_trans; [|exact Hbc].
    unfold interpolate. fold last. rewrite Hmin.
    revert Hab.
    generalize (inject_Z (nth (Z.to_nat (Qfloor h)) s 0%Z)).
    generalize (inject_Z (nth (Z.to_nat (Qfloor h + 1)) s 0%Z)).
    intros b a Hab.
    assert (0 < (1 - (h - inject_Z (Qfloor h))) * (b - a))
      by (apply Qmult_lt_0_compat; lra).
    lra.
Qed.
End StrictInterpolation.

Lemma linspace_point_strict (q i j : nat) :
  (1 <= q)%nat -> (i < j)%nat ->
  inject_Z (Z.of_nat i) / inject_Z (Z.of_nat q)
  < inject_Z (Z.of_nat j) / inject_Z (Z.of_nat q).
Proof.
  intros Hq Hij.
  assert (Hd : 0 < inject_Z (Z.of_nat q)).
  { change 0 with (inject_Z 0). rewrite <- Zlt_Qlt. lia. }
  assert (Hn : inject_Z (Z.of_nat i) < inject_Z (Z.of_nat j))
    by (rewrite <- Zlt_Qlt; lia).
  unfold Qdiv. apply Qmult_lt_compat_r; [apply Qinv_lt_0_compat, Hd | exact Hn].
Qed.

Lemma quantile_edges_strict (xs : list Z) (q : nat) :
  NoDup xs -> (2 <= length xs)%nat -> (1 <= q)%nat ->
  StronglySorted Qlt (quantile_edges xs q).
Proof.
  intros Hnd Hlen Hq.
  unfold quantile_edges, linspace01. rewrite map_map.
  set (s := sort_by Z.leb xs).
  assert (Hs : length s = length xs) by apply sort_by_length.
  assert (HL : 1 <= inject_Z (Z.of_nat (length s) - 1)).
  { change 1 with (inject_Z 1). rewrite <- Zle_Qle. lia. }
  apply StronglySorted_map_seq. intros i j Hij Hj.
  pose proof (linspace_point_range q i ltac:(lia)) as Ri.
  pose proof (linspace_point_range q j ltac:(lia)) as Rj.
  pose proof (linspace_point_strict q i j Hq ltac:(lia)) as M.
  apply interpolate_strict.
  - apply Zsort_sorted.
  - apply (Permutation_NoDup (Permutation_sym (sort_by_perm Z.leb xs)) Hnd).
  - apply Qmult_le_0_compat; [apply Ri | lra].
  - apply Qmult_lt_compat_r; [lra | exact M].
  - revert Rj HL. generalize (inject_Z (Z.of_nat j) / inject_Z (Z.of_nat q)),
      (inject_Z (Z.of_nat (length s) - 1)).
    intros p L Rj HL. nra.
Qed.

Lemma unique_strict (l : list Q) :
  StronglySorted Qlt l -> unique Qeq_bool l = l.
Proof.
  induction 1 as [|a l Hs IH Hall]; simpl; [reflexivity|].
  rewrite IH. f_equal. apply filter_all.
  intros y Hy. rewrite Forall_forall in Hall. specialize (Hall y Hy).
  apply negb_true_iff. destruct (Qeq_bool a y) eqn:E; [|reflexivity].
  apply Qeq_bool_eq in E. lra.
Qed.

Lemma kept_edges_strict (xs : list Z) (q : nat) :
  NoDup xs -> (2 <= length xs)%nat -> (1 <= q)%nat ->
  kept_edges xs q = quantile_edges xs q.
Proof.
  intros Hnd Hlen Hq. unfold kept_edges.
  destruct (drop_duplicates_cases Qeq_bool (quantile_edges xs q)) as [-> | ->];
    [|reflexivity].
  apply unique_strict, quantile_edges_strict; assumption.
Qed.

Lemma consecutive_strict (edges : list Q) (iv : interval) :
  StronglySorted Qlt edges -> In iv (consecutive edges) -> fst iv < snd iv.
Proof.
  unfold consecutive.
  induction 1 as [|a l Hs IH Hall]; simpl; [intros []|].
  destruct l as [|b t]; simpl; [intros []|].
  intros [<-|H].
  - simpl. rewrite Forall_forall in Hall. apply Hall. left. reflexivity.
  - apply IH. exact H.
Qed.

Lemma smoothed_frame_distinct {row : Type} (df : list row)
    (x_col : row -> Z) (y_col : row -> Q) (num_bins : nat) :
  NoDup (map x_col df) -> (2 <= length df)%nat -> (1 <= num_bins)%nat ->
  length (smoothed_frame df x_col y_col num_bins) = num_bins
  /\ forall r, In r (smoothed_frame df x_col y_col num_bins) ->
               fst (Bin r) < snd (Bin r).
Proof.
  intros Hnd Hlen Hq. unfold smoothed_frame.
  set (xs := map x_col (sort_values x_col df)).
  assert (Hp : Permutation xs (map x_col df))
    by (apply Permutation_map, sort_values_perm).
  assert (Hnd' : NoDup xs) by (apply (Permutation_NoDup (Permutation_sym Hp) Hnd)).
  assert (Hlen' : (2 <= length xs)%nat).
  { rewrite (Permutation_length Hp), length_map. exact Hlen. }
  rewrite (kept_edges_strict xs num_bins Hnd' Hlen' Hq).
  pose proof (quantile_edges_strict xs num_bins Hnd' Hlen' Hq) as Hstrict.
  split.
  - rewrite length_map, length_combine, length_seq, Nat.min_id, consecutive_length,
      quantile_edges_length. reflexivity.
  - intros r Hr. apply in_map_iff in Hr. destruct Hr as ([i iv] & <- & Hci).
    unfold bin_row. cbn [Bin snd].
    apply in_combine_r in Hci.
    apply (consecutive_strict _ iv Hstrict Hci).
Qed.

(** X13: on a frame of at least two rows with pairwise distinct timestamps
    no quantile edge repeats, so [smooth_data] returns exactly [num_bins]
    rows, for every [num_bins >= 1], and every bin has a positive width. *)
Theorem smooth_data_distinct_timestamps {row : Type} (df : list row)
    (x_col : row -> Z) (y_col : row -> Q) (num_bins : nat) :
  NoDup (map x_col df) -> (2 <= length df)%nat -> (1 <= num_bins)%nat ->
  exists out,
    smooth_data df x_col y_col num_bins = Ok out
    /\ length out = num_bins
    /\ forall r, In r out -> fst (Bin r) < snd (Bin r).
Proof.
  intros Hnd Hlen Hq.
  assert (Hne : df <> []) by (destruct df; [simpl in Hlen; lia | discriminate]).
  exists (smoothed_frame df x_col y_col num_bins).
  split; [apply smooth_data_frame, Hne|].
  apply smoothed_frame_distinct; assumption.
Qed.

Lemma smooth_data_distinct_timestamps_witness :
  let df := [sample_reading 0 1; sample_reading 10 3; sample_reading 20 8] in
  NoDup (map Timestamp df) /\ (2 <= length df)%nat /\ (1 <= 5)%nat
  /\ exists out,
       smooth_data df Timestamp Soil_Moisture_1 5 = Ok out
       /\ length out = 5%nat
       /\ forall r, In r out -> fst (Bin r) < snd (Bin r).
Proof.
  intro df.
  assert (H1 : NoDup (map Timestamp df)).
  { repeat constructor; simpl; intuition discriminate. }
  assert (H2 : (2 <= length df)%nat) by (simpl; lia).
  assert (H3 : (1 <= 5)%nat) by lia.
  split; [exact H1|]. split; [exact H2|]. split; [exact H3|].
  exact (smooth_data_distinct_timestamps df Timestamp Soil_Moisture_1 5 H1 H2 H3).
Defined.

(** ** The window filter: nesting and position *)

Lemma round_half_even_monotone (x y : Q) :
  x <= y -> (round_half_even x <= round_half_even y)%Z.
Proof.
  intro H. pose proof (Qfloor_resp_le x y H) as F.
  pose proof (Qfloor_le x) as Lx. pose proof (Qlt_floor x) as Ux.
  pose proof (Qfloor_le y) as Ly. pose proof (Qlt_floor y) as Uy.
  rewrite inject_Z_plus in Ux, Uy. change (inject_Z 1) with 1 in Ux, Uy.
  unfold round_half_even.
  destruct (Z.eq_dec (Qfloor x) (Qfloor y)) as [E|N].
  - rewrite <- E in *. revert Lx Ux Ly Uy.
    generalize (inject_Z (Qfloor x)). intros f Lx Ux Ly Uy.
    case_Qltb; try lia; try lra; destruct (Z.even (Qfloor x)); lia.
  - assert (S : (Qfloor x + 1 <= Qfloor y)%Z) by lia.
    assert (A : (Qfloor x <= (if Z.even (Qfloor x) then Qfloor x else Qfloor x + 1)
                 <= Qfloor x + 1)%Z) by (destruct (Z.even (Qfloor x)); lia).
    assert (B : (Qfloor y <= (if Z.even (Qfloor y) then Qfloor y else Qfloor y + 1)
                 <= Qfloor y + 1)%Z) by (destruct (Z.even (Qfloor y)); lia).
    destruct (Qltb (x - inject_Z (Qfloor x)) (1 # 2));
      destruct (Qltb (1 # 2) (x - inject_Z (Qfloor x)));
      destruct (Qltb (y - inject_Z (Qfloor y)) (1 # 2));
      destruct (Qltb (1 # 2) (y - inject_Z (Qfloor y))); lia.
Qed.

Lemma timedelta_monotone (h1 h2 : Q) : h1 <= h2 -> (timedelta h1 <= timedelta h2)%Z.
Proof.
  intro H. unfold timedelta.
  assert (M : h1 * us_per_hour <= h2 * us_per_hour).
  { apply Qmult_le_compat_r; [exact H | discriminate]. }
  pose proof (round_half_even_monotone _ _ M). lia.
Qed.

Lemma df_last_24h_filter (df : list reading) (hours : Q) (latest : Z) :
  max_Z (map Timestamp df) = Some latest ->
  df_last_24h df hours
  = filter (fun r => (latest - timedelta hours <=? Timestamp r)%Z) df.
Proof. intro H. unfold df_last_24h. rewrite H. reflexivity. Qed.

Lemma df_last_24h_incl (df : list reading) (hours : Q) (r : reading) :
  In r (df_last_24h df hours) -> In r df.
Proof.
  unfold df_last_24h. destruct (max_Z (map Timestamp df)); [|intros []].
  intro H. apply filter_In in H. apply H.
Qed.

Lemma max_Z_unique (l l' : list Z) (m : Z) :
  max_Z l = Some m -> (forall x, In x l' -> In x l) -> In m l' ->
  max_Z l' = Some m.
Proof.
  intros Hm Hsub Hin.
  destruct (max_Z l') as [m'|] eqn:E.
  - destruct (max_Z_spec _ _ E) as [Hin' Hall'].
    destruct (max_Z_spec _ _ Hm) as [_ Hall].
    rewrite Forall_forall in Hall, Hall'.
    pose proof (Hall' m Hin). pose proof (Hall m' (Hsub m' Hin')).
    f_equal. lia.
  - destruct l'; [contradiction | discriminate].
Qed.

(** For a duration that is not negative the window keeps the latest row. *)
Lemma window_keeps_latest (df : list reading) (hours : Q) (latest : Z) :
  0 <= hours -> max_Z (map Timestamp df) = Some latest ->
  max_Z (map Timestamp (df_last_24h df hours)) = Some latest.
Proof.
  intros Hh Hmax. pose proof (timedelta_nonneg hours Hh) as T.
  apply (max_Z_unique (map Timestamp df)); [exact Hmax | |].
  - intros x Hx. apply in_map_iff in Hx. destruct Hx as (r & <- & Hr).
    apply in_map. apply (df_last_24h_incl df hours r Hr).
  - destruct (max_Z_spec _ _ Hmax) as [Hin _].
    apply in_map_iff in Hin. destruct Hin as (r & Er & Hr).
    apply in_map_iff. exists r. split; [exact Er|].
    rewrite (df_last_24h_filter df hours latest Hmax). apply filter_In.
    split; [exact Hr|]. apply Z.leb_le. lia.
Qed.

Lemma window_nonempty (df : list reading) (hours : Q) :
  0 <= hours -> df <> [] -> df_last_24h df hours <> [].
Proof.
  intros Hh Hne E.
  destruct (max_Z_nonempty (map Timestamp df)) as [latest Hmax].
  { intro N. apply map_eq_nil in N. contradiction. }
  pose proof (window_keeps_latest df hours latest Hh Hmax) as K.
  rewrite E in K. discriminate K.
Qed.

Lemma filter_implied {A : Type} (f g : A -> bool) (l : list A) :
  (forall a, In a l -> f a = true -> g a = true) ->
  filter f (filter g l) = filter f l.
Proof.
  intro H. induction l as [|a l IH]; simpl; [reflexivity|].
  assert (IH' : filter f (filter g l) = filter f l).
  { apply IH. intros b Hb. apply H. right. exact Hb. }
  destruct (g a) eqn:G; simpl.
  - rewrite IH'. reflexivity.
  - destruct (f a) eqn:F; [|exact IH'].
    rewrite (H a (or_introl eq_refl) F) in G. discriminate G.
Qed.

(** X14: the windows are nested: every row of the window of [h1] hours is
    a row of the window of [h2 >= h1] hours, and when [h2] is not negative
    the shorter window can be cut from the longer one instead of from the
    frame. *)
Theorem window_nested (df : list reading) (h1 h2 : Q) :
  h1 <= h2 ->
  (forall r, In r (df_last_24h df h1) -> In r (df_last_24h df h2))
  /\ (0 <= h2 -> df_last_24h (df_last_24h df h2) h1 = df_last_24h df h1).
Proof.
  intro H. pose proof (timedelta_monotone h1 h2 H) as T.
  destruct (max_Z (map Timestamp df)) as [latest|] eqn:Hmax.
  - split.
    + intro r. rewrite !(df_last_24h_filter df _ latest Hmax), !filter_In.
      intros [Hin Hr]. split; [exact Hin|].
      apply Z.leb_le in Hr. apply Z.leb_le. lia.
    + intro H2. pose proof (window_keeps_latest df h2 latest H2 Hmax) as K.
      rewrite (df_last_24h_filter _ h1 latest K).
      rewrite !(df_last_24h_filter df _ latest Hmax).
      apply filter_implied. intros r _ Hr.
      apply Z.leb_le in Hr. apply Z.leb_le. lia.
  - assert (E : forall h, df_last_24h df h = []).
    { intro h. unfold df_last_24h. rewrite Hmax. reflexivity. }
    rewrite !E. split; [intros r []|]. intros _. reflexivity.
Qed.

Lemma window_nested_witness :
  let df := [sample_reading 0 7000; sample_reading 7200000000000 8000] in
  1 <= 24
  /\ (forall r, In r (df_last_24h df 1) -> In r (df_last_24h df 24))
  /\ df_last_24h (df_last_24h df 24) 1 = df_last_24h df 1.
Proof.
  intro df.
  assert (H : 1 <= 24) by discriminate.
  destruct (window_nested df 1 24 H) as [A B].
  split; [exact H|]. split; [exact A|]. apply B. discriminate.
Defined.

Lemma sorted_filter_suffix {row : Type} (x_col : row -> Z) (c : Z) (l : list row) :
  StronglySorted (fun a b => (x_col a <=? x_col b)%Z = true) l ->
  l = filter (fun r => negb (c <=? x_col r)%Z) l ++ filter (fun r => (c <=? x_col r)%Z) l.
Proof.
  induction 1 as [|h t Hs IH Hall]; simpl; [reflexivity|].
  destruct (c <=? x_col h)%Z eqn:E; simpl.
  - apply Z.leb_le in E.
    assert (Hall' : forall r, In r t -> (c <=? x_col r)%Z = true).
    { rewrite Forall_forall in Hall. intros r Hr. apply Z.leb_le.
      pose proof (Hall r Hr) as L. apply Z.leb_le in L. lia. }
    rewrite (filter_all _ t Hall').
    rewrite filter_none; [reflexivity|].
    intros r Hr. rewrite (Hall' r Hr). reflexivity.
  - f_equal. exact IH.
Qed.

(** X15: the window [save_plot] cuts from the time-sorted frame is the end
    of that frame: the rows left out come first, and each of them is
    strictly older than every row kept. *)
Theorem window_is_suffix (rows : list reading) (hours : Q) :
  exists older,
    sort_values Timestamp rows
    = older ++ df_last_24h (sort_values Timestamp rows) hours
    /\ forall r r', In r older ->
                    In r' (df_last_24h (sort_values Timestamp rows) hours) ->
                    (Timestamp r < Timestamp r')%Z.
Proof.
  set (df := sort_values Timestamp rows).
  destruct (max_Z (map Timestamp df)) as [latest|] eqn:Hmax.
  - rewrite (df_last_24h_filter df hours latest Hmax).
    exists (filter (fun r => negb (latest - timedelta hours <=? Timestamp r)%Z) df).
    split; [apply sorted_filter_suffix, sort_values_sorted|].
    intros r r' Hr Hr'. apply filter_In in Hr, Hr'.
    destruct Hr as [_ Hr]. destruct Hr' as [_ Hr'].
    apply negb_true_iff, Z.leb_gt in Hr. apply Z.leb_le in Hr'. lia.
  - exists df. unfold df_last_24h. rewrite Hmax, app_nil_r.
    split; [reflexivity | intros r r' _ []].
Qed.

(** ** The calibration loop of [save_plot] *)

Lemma scaled_row_other_columns (i : nat) (r : reading) :
  Timestamp (scaled_row i r) = Timestamp r
  /\ Temperature_C (scaled_row i r) = Temperature_C r
  /\ Pressure_hPa (scaled_row i r) = Pressure_hPa r
  /\ Humidity_percent (scaled_row i r) = Humidity_percent r.
Proof. destruct i as [|[|[|i]]]; repeat split. Qed.

Lemma calibrated_Timestamps (df : list reading) :
  map Timestamp (calibrated df) = map Timestamp df.
Proof.
  unfold calibrated. rewrite !map_map. apply map_ext. intro r. reflexivity.
Qed.

(** X16: the calibration loop never fails with the constants of the
    script; it keeps the rows in place, leaves the time, temperature,
    pressure and humidity columns as they were, and replaces each of the
    four moisture columns by [scale_moisture] of that column with the
    constants of the same sensor. *)
Theorem calibrate_keeps_columns (df : list reading) :
  exists w,
    calibrate df = Ok w
    /\ map Timestamp w = map Timestamp df
    /\ map Temperature_C w = map Temperature_C df
    /\ map Pressure_hPa w = map Pressure_hPa df
    /\ map Humidity_percent w = map Humidity_percent df
    /\ forall i, (i < 4)%nat ->
         Forall2 (fun r r' =>
                    scale_moisture (get_moisture i r) (nth i dry_values 0)
                                   (nth i wet_values 0)
                    = Ok (get_moisture i r'))
                 df w.
Proof.
  exists (calibrated df). split; [apply calibrate_Ok|].
  split; [apply calibrated_Timestamps|].
  unfold calibrated. rewrite !map_map.
  repeat split; try (apply map_ext; intro r; reflexivity).
  intros i Hi.
  induction df as [|r df IH]; simpl; constructor; [|exact IH].
  rewrite (scale_moisture_Ok _ _ _ (calibration_points_distinct i Hi)).
  f_equal.
  destruct i as [|[|[|[|i]]]]; try lia; reflexivity.
Qed.




(** ** [save_plot]: what a call does and what it leaves alone *)


(** A call on a parsed table, written out. *)
Lemma save_plot_table (hours : Q) (output_image : string) (w : world)
    (rows : list reading) :
  csv w = Some (Table rows) ->
  save_plot hours output_image w
  = match df_last_24h (sort_values Timestamp rows) hours with
    | [] => (Ok tt, print (NoDataAvailable hours) w)
    | window =>
      (Ok tt,
       print (PlotSaved output_image)
         (savefig output_image
            (figure_of window
               (match max_Z (map Timestamp (sort_values Timestamp rows)) with
                | Some t => t
                | None => 0%Z
                end)) w))
    end.
Proof.
  intro Hcsv. unfold save_plot. rewrite Hcsv. cbn [read_csv to_datetime].
  destruct (df_last_24h (sort_values Timestamp rows) hours) as [|r window] eqn:E;
    cbn [is_empty]; [reflexivity|].
  rewrite render_Ok by discriminate. reflexivity.
Qed.




(** X20: a duration so negative that [timedelta] is below zero puts the
    cut-off after the latest row: the window is empty and the call reports
    that no data is available, however many rows the table has. *)
Theorem save_plot_negative_duration (hours : Q) (output_image : string) (w : world)
    (rows : list reading) :
  csv w = Some (Table rows) -> (timedelta hours < 0)%Z ->
  save_plot hours output_image w = (Ok tt, print (NoDataAvailable hours) w).
Proof.
  intros Hcsv Hneg. rewrite (save_plot_table hours output_image w rows Hcsv).
  replace (df_last_24h (sort_values Timestamp rows) hours) with (@nil reading);
    [reflexivity|].
  symmetry. unfold df_last_24h.
  destruct (max_Z (map Timestamp (sort_values Timestamp rows))) as [latest|] eqn:Hmax;
    [|reflexivity].
  apply filter_none. intros r Hr. apply Z.leb_gt.
  destruct (max_Z_spec _ _ Hmax) as [_ Hall]. rewrite Forall_forall in Hall.
  pose proof (Hall (Timestamp r) (in_map Timestamp _ r Hr)). lia.
Qed.

Lemma save_plot_negative_duration_witness :
  let w := {| csv := Some (Table [sample_reading 0 7000]); stdout := []; images := [] |} in
  csv w = Some (Table [sample_reading 0 7000]) /\ (timedelta (-1) < 0)%Z
  /\ save_plot (-1) "plot.png" w = (Ok tt, print (NoDataAvailable (-1)) w).
Proof.
  intro w.
  assert (H1 : csv w = Some (Table [sample_reading 0 7000])) by reflexivity.
  assert (H2 : (timedelta (-1) < 0)%Z) by reflexivity.
  split; [exact H1|]. split; [exact H2|].
  exact (save_plot_negative_duration (-1) "plot.png" w _ H1 H2).
Defined.



Lemma calibrated_Timestamp (df : list reading) (d : reading) :
  In d (calibrated df) -> In (Timestamp d) (map Timestamp df).
Proof.
  intro Hd. rewrite <- calibrated_Timestamps. apply in_map. exact Hd.
Qed.

(** X22: when all rows of the table carry the same timestamp, a table of a
    single row among them, the call still writes the image and prints the
    success message, but every line of the figure is empty: the default
    of 100 bins leaves no bin on a single instant. *)
Theorem save_plot_one_instant (hours : Q) (output_image : string) (w : world)
    (rows : list reading) (t : Z) :
  csv w = Some (Table rows) -> rows <> [] -> 0 <= hours ->
  (forall r, In r rows -> Timestamp r = t) ->
  exists fig,
    save_plot hours output_image w
    = (Ok tt, print (PlotSaved output_image) (savefig output_image fig w))
    /\ forall l, In l (all_lines fig) -> xdata l = [] /\ ydata l = [].
Proof.
  intros Hcsv Hne Hh Hall.
  rewrite (save_plot_table hours output_image w rows Hcsv).
  set (df := sort_values Timestamp rows).
  pose proof (window_nonempty df hours Hh (sort_values_nonempty Timestamp rows Hne)) as Hw.
  destruct (df_last_24h df hours) as [|r0 window] eqn:Ew; [congruence|].
  eexists. split; [reflexivity|].
  set (win := r0 :: window) in *.
  assert (Hcal : calibrated win <> []) by (apply calibrated_nonempty; discriminate).
  assert (Hinst : forall d, In d (calibrated win) -> Timestamp d = t).
  { intros d Hd. apply calibrated_Timestamp in Hd.
    apply in_map_iff in Hd. destruct Hd as (r & <- & Hr).
    apply Hall. rewrite <- Ew in Hr. apply df_last_24h_incl in Hr.
    apply (Permutation_in _ (sort_values_perm Timestamp rows)). exact Hr. }
  assert (Hsm : forall col, smoothed_frame (calibrated win) Timestamp col default_num_bins = []).
  { intro col. apply (smoothed_frame_one_instant _ _ _ _ t Hcal Hinst). discriminate. }
  intros l Hl. unfold all_lines, plotted_series in Hl.
  cbn [figure_of ax1 ax2 ax22 ax3 ax32 app] in Hl.
  rewrite !Hsm in Hl. simpl in Hl.
  repeat (destruct Hl as [<-|Hl]; [split; reflexivity|]). contradiction.
Qed.

Lemma save_plot_one_instant_witness :
  let w := {| csv := Some (Table [sample_reading 0 7000]); stdout := []; images := [] |} in
  csv w = Some (Table [sample_reading 0 7000])
  /\ [sample_reading 0 7000] <> [] /\ 0 <= 24
  /\ (forall r, In r [sample_reading 0 7000] -> Timestamp r = 0%Z)
  /\ exists fig,
       save_plot 24 "plot.png" w
       = (Ok tt, print (PlotSaved "plot.png") (savefig "plot.png" fig w))
       /\ forall l, In l (all_lines fig) -> xdata l = [] /\ ydata l = [].
Proof.
  intro w.
  assert (H1 : csv w = Some (Table [sample_reading 0 7000])) by reflexivity.
  assert (H2 : [sample_reading 0 7000] <> []) by discriminate.
  assert (H3 : 0 <= 24) by discriminate.
  assert (H4 : forall r, In r [sample_reading 0 7000] -> Timestamp r = 0%Z)
    by (intros r [<-|[]]; reflexivity).
  split; [exact H1|]. split; [exact H2|]. split; [exact H3|]. split; [exact H4|].
  exact (save_plot_one_instant 24 "plot.png" w _ 0 H1 H2 H3 H4).
Defined.



(** ** The five calls of the script *)




Lemma run_skips (cs : list (Q * string)) (w : world) (f : Q -> message) :
  (forall hours path w', csv w' = csv w ->
     save_plot hours path w' = (Ok tt, print (f hours) w')) ->
  run cs w
  = (Ok tt, {| csv := csv w;
               stdout := stdout w ++ map (fun c => f (fst c)) cs;
               images := images w |}).
Proof.
  intro H. revert w H. induction cs as [|[hours path] cs IH]; intros w H.
  - simpl. rewrite app_nil_r. destruct w; reflexivity.
  - cbn [run]. rewrite (H hours path w eq_refl).
    rewrite (IH (print (f hours) w)) by (intros h p w' E; apply H; exact E).
    cbn [print csv stdout images map fst]. rewrite <- app_assoc. reflexivity.
Qed.

(** X25: when the CSV is missing, has a [Timestamp] column that does not
    parse, or has no data row, the script still makes its five calls and
    ends normally: it prints five diagnostics, none of them the success
    message, and writes no image. *)
Theorem script_without_data (w : world) :
  csv w = None \/ csv w = Some UnparseableTimestamps \/ csv w = Some (Table []) ->
  exists msgs,
    length msgs = 5%nat
    /\ (forall m path, In m msgs -> m <> PlotSaved path)
    /\ script w
       = (Ok tt, {| csv := csv w; stdout := stdout w ++ msgs; images := images w |}).
Proof.
  assert (Skip : forall f : Q -> message,
            (forall hours path, f hours <> PlotSaved path) ->
            (forall hours path w', csv w' = csv w ->
               save_plot hours path w' = (Ok tt, print (f hours) w')) ->
            exists msgs,
              length msgs = 5%nat
              /\ (forall m path, In m msgs -> m <> PlotSaved path)
              /\ script w
                 = (Ok tt, {| csv := csv w; stdout := stdout w ++ msgs;
                              images := images w |})).
  { intros f Hf Hsave. exists (map (fun c => f (fst c)) calls).
    split; [reflexivity|]. split.
    - intros m path Hm. apply in_map_iff in Hm. destruct Hm as (c & <- & _). apply Hf.
    - apply (run_skips calls w f Hsave). }
  intros [H|[H|H]].
  - apply (Skip (fun _ => CsvNotFound csv_file)); [discriminate|].
    intros hours path w' E. unfold save_plot. rewrite E, H. reflexivity.
  - apply (Skip (fun _ => ErrorParsingTimestamps ValueError)); [discriminate|].
    intros hours path w' E. unfold save_plot. rewrite E, H. reflexivity.
  - apply (Skip NoDataAvailable); [discriminate|].
    intros hours path w' E. unfold save_plot. rewrite E, H. reflexivity.
Qed.

Lemma script_without_data_witness :
  let w := {| csv := Some (Table []); stdout := []; images := [] |} in
  (csv w = None \/ csv w = Some UnparseableTimestamps \/ csv w = Some (Table []))
  /\ exists msgs,
       length msgs = 5%nat
       /\ (forall m path, In m msgs -> m <> PlotSaved path)
       /\ script w
          = (Ok tt, {| csv := csv w; stdout := stdout w ++ msgs; images := images w |}).
Proof.
  intro w.
  assert (H : csv w = None \/ csv w = Some UnparseableTimestamps
              \/ csv w = Some (Table [])) by (right; right; reflexivity).
  split; [exact H | exact (script_without_data w H)].
Defined.
